(** * tommy-pose-demo: the frame-rate estimator, the skeleton renderer and
      the camera streaming loop

    Shallow embedding of [posenet/pose_camera.py] and [streamming/client.py].

    Numbers.  Python's [int] is [Z].  Python's [float] values (clock
    readings, keypoint coordinates, scores, box sizes) are embedded as
    rationals [Q]: every arithmetic step of the source is kept, in the
    order the source performs it, and is computed exactly.  [a / b] raises
    [ZeroDivisionError] when [b] is zero, as Python's true division does.

    Effects.  A Python exception is a value of [exn]; code that can raise
    returns a [result].  The generator of [avg_fps_counter] is a state
    machine advanced by [next]; the drawing code runs in a state-and-error
    monad over the objects it can reach. *)

From Stdlib Require Import QArith Qround.
From Stdlib Require Import Lqa.
From stdpp Require Import gmap strings list.

Local Open Scope Z_scope.

(** ** Python values and exceptions *)

Module Py.

Inductive exn : Type :=
| ZeroDivisionError
| StopIteration
| KeyboardInterrupt
| cv2_error.

Inductive result (A : Type) : Type :=
| Ok (a : A)
| Raise (e : exn).

Arguments Ok {A} a.
Arguments Raise {A} e.

(** [a / b] on numbers. *)
Definition truediv (a b : Q) : result Q :=
  if Qeq_bool b 0 then Raise ZeroDivisionError else Ok (a / b)%Q.

(** [a < b] on numbers. *)
Definition lt (a b : Q) : bool := negb (Qle_bool b a).

(** [int(a)]: truncation towards zero. *)
Definition int (a : Q) : Z := Z.quot (Qnum a) (Zpos (Qden a)).

(** [sum(l)]: left to right from the start value [0]. *)
Definition sum (l : list Q) : Q := fold_left Qplus l 0%Q.

(** [len(l)] as a number. *)
Definition len {A} (l : list A) : Q := inject_Z (Z.of_nat (length l)).

End Py.

Import Py.

(** ** [collections.deque(maxlen=n)] *)

Module Deque.

Record deque : Type := mk {
  items : list Q;   (* left end first *)
  maxlen : nat;
}.

(** [deque(maxlen=n)].  The capacity is a natural number: [deque] rejects
    a negative [maxlen] when it is built. *)
Definition new (n : nat) : deque := {| items := []; maxlen := n |}.

(** [d.append(x)]: the item goes to the right end; a deque grown past
    [maxlen] drops its leftmost item. *)
Definition append (d : deque) (x : Q) : deque :=
  let l := items d ++ [x] in
  {| items := if (maxlen d <? length l)%nat then tail l else l;
     maxlen := maxlen d |}.

End Deque.

(** ** [avg_fps_counter] (pose_camera.py, lines 80-89) *)

Module Fps.

(** The generator object: created and not yet started, parked at one of its
    two [yield]s with its locals [window] and [prev], or finished because
    its body raised. *)
Inductive generator : Type :=
| Created (window_size : nat)
| Suspended (window : Deque.deque) (prev : Q)
| Finished.

Definition avg_fps_counter (window_size : nat) : generator :=
  Created window_size.

(** [next(g)], where [now] is what [time.monotonic()] returns during this
    advance.  A finished generator raises [StopIteration] without reading
    the clock. *)
Definition next (g : generator) (now : Q) : result Q * generator :=
  match g with
  | Created window_size =>
      let window := Deque.new window_size in
      let prev := now in
      (Ok 0%Q, Suspended window prev)
  | Suspended window prev =>
      let curr := now in
      let window := Deque.append window (curr - prev)%Q in
      let prev := curr in
      match truediv (len (Deque.items window)) (sum (Deque.items window)) with
      | Ok fps => (Ok fps, Suspended window prev)
      | Raise e => (Raise e, Finished)
      end
  | Finished => (Raise StopIteration, Finished)
  end.

(** Successive advances, one clock reading each. *)
Fixpoint advances (g : generator) (clock : list Q)
  : list (result Q) * generator :=
  match clock with
  | [] => ([], g)
  | now :: clock' =>
      let (r, g') := next g now in
      let (rs, g'') := advances g' clock' in
      (r :: rs, g'')
  end.

(** The local [window] of a generator parked at a [yield]. *)
Definition window (g : generator) : option (list Q) :=
  match g with
  | Suspended w _ => Some (Deque.items w)
  | _ => None
  end.

End Fps.

(** ** State and exceptions *)

Module Eff.

(** A computation over a store [S] that returns an [A] or raises; the store
    keeps what was written before the exception. *)
Definition M (S A : Type) : Type := S -> result A * S.

Definition ret {S A} (a : A) : M S A := fun s => (Ok a, s).

Definition bind {S A B} (c : M S A) (k : A -> M S B) : M S B :=
  fun s =>
    match c s with
    | (Ok a, s') => k a s'
    | (Raise e, s') => (Raise e, s')
    end.

Definition lift {S A} (r : result A) : M S A := fun s => (r, s).

Definition get {S} : M S S := fun s => (Ok s, s).

Definition modify {S} (f : S -> S) : M S unit := fun s => (Ok tt, f s).

(** [for x in l: acc = body x acc], with the locals the loop updates as
    [acc]. *)
Fixpoint for_in {S A L} (l : list A) (body : A -> L -> M S L) (acc : L)
  : M S L :=
  match l with
  | [] => ret acc
  | x :: l' => bind (body x acc) (for_in l' body)
  end.

End Eff.

Notation "'let*' x ':=' c 'in' k" := (Eff.bind c (fun x => k))
  (at level 10, x pattern, c at level 100, k at level 200).

(** ** The drawing surface ([svgwrite.Drawing]) *)

Module Svg.

Inductive element : Type :=
| circle (center : Z * Z) (r : Z) (fill : string) (fill_opacity : Q)
         (stroke : string)
| line (start end_ : Z * Z) (stroke : string) (stroke_width : Z)
| text (txt : string) (insert : Z * Z) (fill : string) (font_size : Z)
       (style : string).

Definition is_circle (e : element) : bool :=
  match e with circle _ _ _ _ _ => true | _ => false end.

Definition is_line (e : element) : bool :=
  match e with line _ _ _ _ => true | _ => false end.

End Svg.

(** ** [shadow_text] and [draw_pose] (pose_camera.py, lines 29-78) *)

Module Render.

Local Open Scope string_scope.

Record Keypoint : Type := {
  yx : Q * Q;      (* [yx[0]] is the row, [yx[1]] the column *)
  score : Q;
}.

(** The objects a call can reach through its arguments [dwg] and [pose],
    and the standard output.  [keypoints] is the dict [pose.keypoints] in
    its iteration order; [elements] is what [dwg.add] has collected. *)
Record objects : Type := {
  elements : list Svg.element;
  keypoints : list (string * Keypoint);
  stdout : list (Q * Q * Q * Q);
}.

(** A dict holds each key once. *)
Definition dict_ok {V} (d : list (string * V)) : Prop := NoDup (d.*1).

Definition EDGES : list (string * string) := [
  ("nose", "left eye");
  ("nose", "right eye");
  ("nose", "left ear");
  ("nose", "right ear");
  ("left ear", "left eye");
  ("right ear", "right eye");
  ("left eye", "right eye");
  ("left shoulder", "right shoulder");
  ("left shoulder", "left elbow");
  ("left shoulder", "left hip");
  ("right shoulder", "right elbow");
  ("right shoulder", "right hip");
  ("left elbow", "left wrist");
  ("right elbow", "right wrist");
  ("left hip", "right hip");
  ("left hip", "left knee");
  ("right hip", "right knee");
  ("left knee", "left ankle");
  ("right knee", "right ankle")
].

(** [dwg.add(e)] *)
Definition add (e : Svg.element) : Eff.M objects unit :=
  Eff.modify (fun o =>
    {| elements := elements o ++ [e];
       keypoints := keypoints o;
       stdout := stdout o |}).

(** [print('inf box', inference_box)] *)
Definition print_inf_box (inference_box : Q * Q * Q * Q)
  : Eff.M objects unit :=
  Eff.modify (fun o =>
    {| elements := elements o;
       keypoints := keypoints o;
       stdout := stdout o ++ [inference_box] |}).

Definition shadow_text (x y : Z) (text : string) (font_size : Z)
  : Eff.M objects unit :=
  let* _ := add (Svg.text text (x + 1, y + 1) "black" font_size
                          "font-family:sans-serif") in
  add (Svg.text text (x, y) "white" font_size "font-family:sans-serif").

Definition default_font_size : Z := 16.

(** [int(kp_x)] and [int(kp_y)] in the circle's centre are [int] of an
    [int], which returns it.  The edge loop looks both labels up at once:
    [a not in xys or b not in xys] is the case where a lookup finds
    nothing. *)
Definition draw_pose (src_size : Z * Z) (inference_box : Q * Q * Q * Q)
    (color : string) (threshold : Q) : Eff.M objects unit :=
  let* _ := print_inf_box inference_box in
  let '(box_x, box_y, box_w, box_h) := inference_box in
  let* scale_x := Eff.lift (truediv (inject_Z (fst src_size)) box_w) in
  let* scale_y := Eff.lift (truediv (inject_Z (snd src_size)) box_h) in
  let* o := Eff.get in
  let* xys :=
    Eff.for_in (keypoints o) (fun '(label, keypoint) xys =>
      if lt (score keypoint) threshold then Eff.ret xys else
      let kp_y := int ((fst (yx keypoint) - box_y) * scale_y)%Q in
      let kp_x := int ((snd (yx keypoint) - box_x) * scale_x)%Q in
      let xys := <[label := (kp_x, kp_y)]> xys in
      let* _ := add (Svg.circle (kp_x, kp_y) 5 "cyan" (score keypoint)
                                color) in
      Eff.ret xys) (∅ : gmap string (Z * Z)) in
  let* _ :=
    Eff.for_in EDGES (fun '(a, b) (_ : unit) =>
      match xys !! a, xys !! b with
      | Some (ax, ay), Some (bx, by') =>
          add (Svg.line (ax, ay) (bx, by') color 2)
      | _, _ => Eff.ret tt
      end) tt in
  Eff.ret tt.

Definition default_color : string := "yellow".
Definition default_threshold : Q := 0.2.

End Render.

(** ** The capture loop of the streaming script (client.py, lines 35-52) *)

Module Stream.

(** The calls the script makes into cv2, base64 and zmq. *)
Inductive call : Type :=
| VideoCapture
| isOpened
| read
| resize
| imencode
| b64encode
| send
| release
| destroyAllWindows.

Global Instance call_eq_dec : EqDecision call.
Proof. solve_decision. Defined.

Global Instance exn_eq_dec : EqDecision exn.
Proof. solve_decision. Defined.

(** What a call does: it returns (the boolean is [isOpened]'s answer and
    [read]'s [grabbed]; the other calls' values are opaque to the script)
    or it raises. *)
Inductive outcome : Type :=
| Returns (v : bool)
| Raises (e : exn).

Global Instance outcome_eq_dec : EqDecision outcome.
Proof. solve_decision. Defined.

(** The world outside the script: the outcome of its n-th call.  The
    store of the script is the log of the calls made so far. *)
Definition world : Type := nat -> outcome.
Definition log : Type := list (call * outcome).

Definition perform (w : world) (c : call) : Eff.M log bool :=
  fun tr =>
    match w (length tr) with
    | Returns v => (Ok v, tr ++ [(c, Returns v)])
    | Raises e => (Raise e, tr ++ [(c, Raises e)])
    end.

(** [cv2.resize(frame, (640, 480))]: [camera.read()] hands back [None] for
    the frame when nothing was grabbed, and resizing [None] raises
    [cv2.error]. *)
Definition cv2_resize (w : world) (grabbed : bool) : Eff.M log bool :=
  if grabbed then perform w resize
  else fun tr => (Raise cv2_error, tr ++ [(resize, Raises cv2_error)]).

Inductive flow : Type := Next | Break.

(** [try: body  except KeyboardInterrupt: handler] *)
Definition try_except_KeyboardInterrupt {S}
    (body : Eff.M S unit) (handler : Eff.M S flow) : Eff.M S flow :=
  fun s =>
    match body s with
    | (Ok _, s') => (Ok Next, s')
    | (Raise KeyboardInterrupt, s') => handler s'
    | (Raise e, s') => (Raise e, s')
    end.

Definition body (w : world) : Eff.M log unit :=
  let* grabbed := perform w read in
  let* _ := cv2_resize w grabbed in
  let* _ := perform w imencode in
  let* _ := perform w b64encode in
  let* _ := perform w send in
  Eff.ret tt.

Definition handler (w : world) : Eff.M log flow :=
  let* _ := perform w release in
  let* _ := perform w destroyAllWindows in
  Eff.ret Break.

(** How a run stands: the loop was left and the script ran off its end, or
    the loop is still turning after [fuel] iterations. *)
Inductive status : Type := Exited | Running.

Fixpoint capture_loop (w : world) (fuel : nat) : Eff.M log status :=
  match fuel with
  | O => Eff.ret Running
  | S fuel' =>
      let* opened := perform w isOpened in
      if opened then
        let* f := try_except_KeyboardInterrupt (body w) (handler w) in
        match f with
        | Break => Eff.ret Exited
        | Next => capture_loop w fuel'
        end
      else Eff.ret Exited
  end.

(** The script from [camera = cv2.VideoCapture(1)] on.  [Raise e] is the
    process dying on the uncaught exception [e]. *)
Definition script (w : world) (fuel : nat) : result status * log :=
  (let* _ := perform w VideoCapture in capture_loop w fuel) [].

Definition calls (tr : log) : list call := tr.*1.

Definition released (tr : log) : nat :=
  length (filter (fun c => c = release) (calls tr)).

Definition in_body (c : call) : Prop :=
  c = read \/ c = resize \/ c = imencode \/ c = b64encode \/ c = send.

End Stream.

(** ** [main] and [render_overlay] (pose_camera.py, lines 124-155) *)

Module Main.

(** The variables of [main] that [render_overlay] shares across calls, and
    the standard output. *)
Record state : Type := mk {
  n : Z;
  sum_process_time : Q;
  sum_inference_time : Q;
  ctr : Z;
  fps_counter : Fps.generator;
  stdout : list (Q * Q * Q * Q);
}.

(** The variables as [main] sets them before it starts the pipeline. *)
Definition main_state : state :=
  {| n := 0;
     sum_process_time := 0;
     sum_inference_time := 0;
     ctr := 0;
     fps_counter := Fps.avg_fps_counter 30;
     stdout := [] |}.

Definition set_n (v : Z) (s : state) : state :=
  mk v (sum_process_time s) (sum_inference_time s) (ctr s) (fps_counter s)
     (stdout s).

Definition set_sum_process_time (v : Q) (s : state) : state :=
  mk (n s) v (sum_inference_time s) (ctr s) (fps_counter s) (stdout s).

Definition set_sum_inference_time (v : Q) (s : state) : state :=
  mk (n s) (sum_process_time s) v (ctr s) (fps_counter s) (stdout s).

Definition set_fps_counter (g : Fps.generator) (s : state) : state :=
  mk (n s) (sum_process_time s) (sum_inference_time s) (ctr s) g (stdout s).

Definition set_stdout (out : list (Q * Q * Q * Q)) (s : state) : state :=
  mk (n s) (sum_process_time s) (sum_inference_time s) (ctr s)
     (fps_counter s) out.

(** [next(fps_counter)], where [now] is the clock reading of the advance. *)
Definition next_fps_counter (now : Q) : Eff.M state Q :=
  fun s =>
    let (r, g) := Fps.next (fps_counter s) now in
    (r, set_fps_counter g s).

(** A drawing call on the local canvas [svg_canvas] and on [pose]; it
    returns the canvas as the call leaves it. *)
Definition on_canvas (svg_canvas : list Svg.element)
    (pose : list (string * Render.Keypoint))
    (draw : Eff.M Render.objects unit) : Eff.M state (list Svg.element) :=
  fun s =>
    let (r, o) := draw {| Render.elements := svg_canvas;
                          Render.keypoints := pose;
                          Render.stdout := stdout s |} in
    (match r with
     | Ok _ => Ok (Render.elements o)
     | Raise e => Raise e
     end,
     set_stdout (Render.stdout o) s).

Section render_overlay.

(** Library code: the [%] operator on the template
    ['PoseNet: %.1fms (%.2f fps) TrueFPS: %.2f Nposes %d'], and
    [svg_canvas.tostring()]. *)
Variable format_text_line : Q -> Q -> Q -> Z -> string.
Variable tostring : list Svg.element -> string.

(** [render_overlay(engine, output, src_size, inference_box)].
    [parse_output] is what [engine.ParseOutput(output)] returns, the poses
    by their keypoints and the inference time; [clock] holds the readings
    of [time.monotonic()] before and after the parsing and in the advance
    of the estimator. *)
Definition render_overlay
    (parse_output : list (list (string * Render.Keypoint)) * Q)
    (clock : Q * Q * Q) (src_size : Z * Z) (inference_box : Q * Q * Q * Q)
  : Eff.M state (string * bool) :=
  let svg_canvas : list Svg.element := [] in
  let '(start_time, end_time, now) := clock in
  let '(outputs, inference_time) := parse_output in
  let* _ := Eff.modify (fun s => set_n (n s + 1) s) in
  let* _ := Eff.modify (fun s =>
              set_sum_process_time
                (sum_process_time s + 1000 * (end_time - start_time))%Q s) in
  let* _ := Eff.modify (fun s =>
              set_sum_inference_time
                (sum_inference_time s + inference_time)%Q s) in
  let* s := Eff.get in
  let* avg_inference_time :=
    Eff.lift (truediv (sum_inference_time s) (inject_Z (n s))) in
  let* per_second := Eff.lift (truediv 1000 avg_inference_time) in
  let* true_fps := next_fps_counter now in
  let text_line :=
    format_text_line avg_inference_time per_second true_fps
                     (Z.of_nat (length outputs)) in
  let* svg_canvas :=
    on_canvas svg_canvas []
      (Render.shadow_text 10 20 text_line Render.default_font_size) in
  let* svg_canvas :=
    Eff.for_in outputs (fun pose svg_canvas =>
      on_canvas svg_canvas pose
        (Render.draw_pose src_size inference_box Render.default_color
                          Render.default_threshold)) svg_canvas in
  Eff.ret (tostring svg_canvas, false).

End render_overlay.

End Main.

(** * Vocabulary of the statements *)

(** ** The frame-rate estimator *)

(** The inter-call deltas of a run of clock readings. *)
Definition deltas (ts : list Q) : list Q :=
  zip_with (fun a b => (b - a)%Q) ts (tail ts).

(** The last [k] items of a list (all of them when it is shorter). *)
Definition last_n {A} (k : nat) (l : list A) : list A :=
  drop (length l - k) l.

(** Each reading is above the one before it. *)
Definition strictly_increasing (ts : list Q) : Prop :=
  forall (i : nat) (a b : Q),
    ts !! i = Some a -> ts !! S i = Some b -> (a < b)%Q.

(** What [time.monotonic()] promises: a reading is never below an earlier
    one. *)
Definition nondecreasing (ts : list Q) : Prop :=
  forall (i : nat) (a b : Q),
    ts !! i = Some a -> ts !! S i = Some b -> (a <= b)%Q.

(** ** The skeleton renderer *)

(** A keypoint is drawn when its score reaches the threshold. *)
Definition qualifies (threshold : Q) (kp : Render.Keypoint) : bool :=
  Qle_bool threshold (Render.score kp).

Definition qualifying (threshold : Q)
    (kps : list (string * Render.Keypoint))
  : list (string * Render.Keypoint) :=
  List.filter (fun x => qualifies threshold (snd x)) kps.

(** The display position of a keypoint: offset by the box corner, scaled by
    source size over box size, truncated. *)
Definition position (src_size : Z * Z) (box : Q * Q * Q * Q)
    (kp : Render.Keypoint) : Z * Z :=
  let '(offset_x, offset_y, box_w, box_h) := box in
  let raw_x := snd (Render.yx kp) in
  let raw_y := fst (Render.yx kp) in
  (int ((raw_x - offset_x) * (inject_Z (fst src_size) / box_w))%Q,
   int ((raw_y - offset_y) * (inject_Z (snd src_size) / box_h))%Q).

Definition circle_of (src_size : Z * Z) (box : Q * Q * Q * Q)
    (color : string) (kp : Render.Keypoint) : Svg.element :=
  Svg.circle (position src_size box kp) 5 "cyan" (Render.score kp) color.

(** The edges of the fixed list whose two labels both belong to drawn
    keypoints, in the order of the list. *)
Definition drawn_edges (threshold : Q)
    (kps : list (string * Render.Keypoint)) : list (string * string) :=
  List.filter
    (fun e => bool_decide (fst e ∈ (qualifying threshold kps).*1)
              && bool_decide (snd e ∈ (qualifying threshold kps).*1))
    Render.EDGES.

(** [ln] is the segment between the display positions of two drawn
    keypoints labelled as the ends of the edge [e]. *)
Definition line_of (src_size : Z * Z) (box : Q * Q * Q * Q)
    (color : string) (threshold : Q)
    (kps : list (string * Render.Keypoint))
    (e : string * string) (ln : Svg.element) : Prop :=
  exists ka kb : Render.Keypoint,
    (fst e, ka) ∈ qualifying threshold kps
    /\ (snd e, kb) ∈ qualifying threshold kps
    /\ ln = Svg.line (position src_size box ka) (position src_size box kb)
                     color 2.

(** What a call added to the canvas. *)
Definition new_elements (o o' : Render.objects) : list Svg.element :=
  drop (length (Render.elements o)) (Render.elements o').

(** A box of non-zero width and height. *)
Definition nonzero (box : Q * Q * Q * Q) : Prop :=
  let '(_, _, box_w, box_h) := box in ~ (box_w == 0)%Q /\ ~ (box_h == 0)%Q.

(** The centres of the circles among some elements, in their order. *)
Definition circle_centres (l : list Svg.element) : list (Z * Z) :=
  omap (fun e => match e with
                 | Svg.circle c _ _ _ _ => Some c
                 | _ => None
                 end) l.

(** A pose for the examples: nose and left eye above the default
    threshold, right eye below it. *)
Definition example_pose : list (string * Render.Keypoint) :=
  [("nose", {| Render.yx := (200, 100)%Q; Render.score := 0.9%Q |});
   ("left eye", {| Render.yx := (190, 110)%Q; Render.score := 0.8%Q |});
   ("right eye", {| Render.yx := (190, 90)%Q; Render.score := 0.1%Q |})].

Definition example_objects : Render.objects :=
  {| Render.elements := [];
     Render.keypoints := example_pose;
     Render.stdout := [] |}.

Section render_folds.

Import Render.

(** The two loops of [draw_pose] as folds: what the first loop does to the
    local [xys] and to the canvas, and what the second does to the
    canvas. *)
Definition record_position (src_size : Z * Z) (box : Q * Q * Q * Q)
    (threshold : Q) (x : string * Keypoint) (xys : gmap string (Z * Z))
  : gmap string (Z * Z) :=
  if lt (score x.2) threshold then xys
  else <[x.1 := position src_size box x.2]> xys.

Definition with_circle (src_size : Z * Z) (box : Q * Q * Q * Q)
    (color : string) (threshold : Q) (x : string * Keypoint) (s : objects)
  : objects :=
  if lt (score x.2) threshold then s
  else {| elements := elements s ++ [circle_of src_size box color x.2];
          keypoints := keypoints s;
          stdout := stdout s |}.

Definition edge_line (xys : gmap string (Z * Z)) (color : string)
    (e : string * string) : option Svg.element :=
  match xys !! e.1, xys !! e.2 with
  | Some p, Some q => Some (Svg.line p q color 2)
  | _, _ => None
  end.

Definition with_line (xys : gmap string (Z * Z)) (color : string)
    (e : string * string) (s : objects) : objects :=
  match edge_line xys color e with
  | Some ln => {| elements := elements s ++ [ln];
                  keypoints := keypoints s;
                  stdout := stdout s |}
  | None => s
  end.

Definition record_all (src_size : Z * Z) (box : Q * Q * Q * Q)
    (l : list (string * Keypoint)) (xys : gmap string (Z * Z))
  : gmap string (Z * Z) :=
  fold_left (fun a x => <[x.1 := position src_size box x.2]> a) l xys.

End render_folds.

(** ** The capture loop *)

(** A call that was not [release] and, if it was one of the five calls of
    the loop body, did not raise. *)
Definition quiet (ev : Stream.call * Stream.outcome) : Prop :=
  ev.1 <> Stream.release
  /\ (Stream.in_body ev.1 -> exists v, ev.2 = Stream.Returns v).

(** How the handler of [KeyboardInterrupt] went: both calls returned and
    the loop was left, or one of them raised in its turn. *)
Inductive cleanup : result Stream.status -> Stream.log -> Prop :=
| cleanup_done (v v' : bool) :
    cleanup (Ok Stream.Exited)
            [(Stream.release, Stream.Returns v);
             (Stream.destroyAllWindows, Stream.Returns v')]
| cleanup_release_raised (e : exn) :
    cleanup (Raise e) [(Stream.release, Stream.Raises e)]
| cleanup_destroy_raised (v : bool) (e : exn) :
    cleanup (Raise e)
            [(Stream.release, Stream.Returns v);
             (Stream.destroyAllWindows, Stream.Raises e)].

(** The three ways a run can stand: no body call has raised; a body call
    raised something other than [KeyboardInterrupt], which ends the script;
    a body call raised [KeyboardInterrupt], which runs the handler. *)
Inductive run_shape : result Stream.status -> Stream.log -> Prop :=
| shape_quiet (st : result Stream.status) (tr : Stream.log) :
    Forall quiet tr -> run_shape st tr
| shape_failed (e : exn) (c : Stream.call) (tr : Stream.log) :
    e <> KeyboardInterrupt -> Stream.in_body c -> Forall quiet tr ->
    run_shape (Raise e) (tr ++ [(c, Stream.Raises e)])
| shape_interrupted (st : result Stream.status) (c : Stream.call)
    (tr tail : Stream.log) :
    Stream.in_body c -> Forall quiet tr -> cleanup st tail ->
    run_shape st (tr ++ (c, Stream.Raises KeyboardInterrupt) :: tail).

(** The release discipline in its strongest reading: however the script
    ends, it has called [release] once. *)
Definition released_on_every_exit : Prop :=
  forall (w : Stream.world) (fuel : nat),
    fst (Stream.script w fuel) <> Ok Stream.Running ->
    Stream.released (snd (Stream.script w fuel)) = 1%nat.

(** A camera whose [read] raises at the first frame, and one whose [read]
    grabs nothing at the first frame. *)
Definition read_raises : Stream.world :=
  fun n => match n with
           | 2%nat => Stream.Raises cv2_error
           | _ => Stream.Returns true
           end.

Definition read_grabs_nothing : Stream.world :=
  fun n => match n with
           | 2%nat => Stream.Returns false
           | _ => Stream.Returns true
           end.

(** Ctrl-C while the second frame is being sent. *)
Definition interrupted_send : Stream.world :=
  fun n => match n with
           | 12%nat => Stream.Raises KeyboardInterrupt
           | _ => Stream.Returns true
           end.

(** One turn of the loop in which every call returned and a frame was
    grabbed and sent. *)
Definition complete_iteration (it : Stream.log) : Prop :=
  exists v2 v3 v4 v5 : bool,
    it = [(Stream.isOpened, Stream.Returns true);
          (Stream.read, Stream.Returns true);
          (Stream.resize, Stream.Returns v2);
          (Stream.imencode, Stream.Returns v3);
          (Stream.b64encode, Stream.Returns v4);
          (Stream.send, Stream.Returns v5)].

(** The calls of a turn in a world where every call returns [True]. *)
Definition frame_sent : Stream.log :=
  [(Stream.isOpened, Stream.Returns true);
   (Stream.read, Stream.Returns true);
   (Stream.resize, Stream.Returns true);
   (Stream.imencode, Stream.Returns true);
   (Stream.b64encode, Stream.Returns true);
   (Stream.send, Stream.Returns true)].

(** The end of a log, after the complete turns: no frame was sent in it;
    a [read] that grabbed nothing in it is followed by the failing
    [resize], which ends the script; a loop still turning has none. *)
Definition last_turn (st : result Stream.status) (tail : Stream.log) : Prop :=
  (forall v, (Stream.send, Stream.Returns v) ∉ tail)
  /\ ((Stream.read, Stream.Returns false) ∈ tail ->
      st = Raise cv2_error
      /\ exists pre,
           tail = pre ++ [(Stream.read, Stream.Returns false);
                          (Stream.resize, Stream.Raises cv2_error)])
  /\ (st = Ok Stream.Running -> tail = []).

(** ** The overlay *)

(** What [draw_pose] adds to a canvas for a pose, with the default colour
    and threshold. *)
Definition pose_elements (src_size : Z * Z) (box : Q * Q * Q * Q)
    (pose : list (string * Render.Keypoint)) : list Svg.element :=
  let o := {| Render.elements := [];
              Render.keypoints := pose;
              Render.stdout := [] |} in
  new_elements o
    (snd (Render.draw_pose src_size box Render.default_color
                           Render.default_threshold o)).

(** The two text elements of [shadow_text] at (10, 20). *)
Definition overlay_text (text_line : string) : list Svg.element :=
  [Svg.text text_line (11, 21) "black" 16 "font-family:sans-serif";
   Svg.text text_line (10, 20) "white" 16 "font-family:sans-serif"].

(** Stand-ins for the two library functions in the examples. *)
Definition example_format (avg per_second true_fps : Q) (nposes : Z)
  : string := "text".

Definition example_tostring (svg_canvas : list Svg.element) : string :=
  "svg".

(** * Properties *)

(** ** The code on small inputs *)

Example int_truncates : int (-7 # 2) = -3 /\ int (7 # 2) = 3.
Proof. split; reflexivity. Qed.

Example window_evicts_oldest :
  Fps.window (snd (Fps.advances (Fps.avg_fps_counter 2) [0; 1; 3; 6]%Q))
  = Some [3 - 1; 6 - 3]%Q.
Proof. reflexivity. Qed.

Example draw_example_pose :
  Render.elements
    (snd (Render.draw_pose (640, 480) (0, 0, 320, 240)%Q
            Render.default_color Render.default_threshold example_objects))
  = [Svg.circle (200, 400) 5 "cyan" 0.9%Q "yellow";
     Svg.circle (220, 380) 5 "cyan" 0.8%Q "yellow";
     Svg.line (200, 400) (220, 380) "yellow" 2].
Proof. vm_compute. reflexivity. Qed.

Example draw_zero_box :
  Render.draw_pose (640, 480) (0, 0, 0, 240)%Q
    Render.default_color Render.default_threshold example_objects
  = (Raise ZeroDivisionError,
     {| Render.elements := [];
        Render.keypoints := example_pose;
        Render.stdout := [(0, 0, 0, 240)%Q] |}).
Proof. reflexivity. Qed.

Example interrupted_run :
  Stream.script interrupted_send 5
  = (Ok Stream.Exited,
     [(Stream.VideoCapture, Stream.Returns true);
      (Stream.isOpened, Stream.Returns true);
      (Stream.read, Stream.Returns true);
      (Stream.resize, Stream.Returns true);
      (Stream.imencode, Stream.Returns true);
      (Stream.b64encode, Stream.Returns true);
      (Stream.send, Stream.Returns true);
      (Stream.isOpened, Stream.Returns true);
      (Stream.read, Stream.Returns true);
      (Stream.resize, Stream.Returns true);
      (Stream.imencode, Stream.Returns true);
      (Stream.b64encode, Stream.Returns true);
      (Stream.send, Stream.Raises KeyboardInterrupt);
      (Stream.release, Stream.Returns true);
      (Stream.destroyAllWindows, Stream.Returns true)]).
Proof. reflexivity. Qed.

Example camera_not_opened :
  Stream.script
    (fun n => match n with
              | 1%nat => Stream.Returns false
              | _ => Stream.Returns true
              end) 5
  = (Ok Stream.Exited,
     [(Stream.VideoCapture, Stream.Returns true);
      (Stream.isOpened, Stream.Returns false)]).
Proof. reflexivity. Qed.

(** ** The frame-rate estimator *)

Section fps.

Import Fps.

Lemma last_n_length {A} (k : nat) (l : list A) :
  length (last_n k l) = Nat.min (length l) k.
Proof. unfold last_n. rewrite length_drop. lia. Qed.

Lemma last_n_all {A} (k : nat) (l : list A) :
  (length l <= k)%nat -> last_n k l = l.
Proof.
  intros Hk. unfold last_n.
  replace (length l - k)%nat with 0%nat by lia. reflexivity.
Qed.


Lemma tail_drop {A} (k : nat) (l : list A) :
  tail (drop k l) = drop (S k) l.
Proof.
  revert k. induction l as [| x l IH]; intros k.
  - destruct k; reflexivity.
  - destruct k; cbn; [reflexivity | apply IH].
Qed.

(** Appending to a window that holds the last [n] deltas leaves the last
    [n] of the longer history. *)
Lemma append_last_n (n : nat) (ds : list Q) (x : Q) :
  Deque.append (Deque.mk (last_n n ds) n) x
  = Deque.mk (last_n n (ds ++ [x])) n.
Proof.
  unfold Deque.append; cbn [Deque.items Deque.maxlen]. f_equal.
  rewrite length_app, last_n_length. cbn [length].
  destruct (Nat.ltb_spec n (Nat.min (length ds) n + 1)) as [Hfull | Hroom].
  - assert (Hn : (n <= length ds)%nat) by lia.
    unfold last_n. rewrite length_app. cbn [length].
    replace (length ds + 1 - n)%nat with (S (length ds - n)) by lia.
    rewrite <- (drop_app_le ds [x] (length ds - n)) by lia.
    apply tail_drop.
  - rewrite (last_n_all n ds) by lia.
    rewrite last_n_all; [reflexivity | rewrite length_app; cbn; lia].
Qed.

Lemma deltas_snoc (ts : list Q) (p t : Q) :
  last ts = Some p -> deltas (ts ++ [t]) = deltas ts ++ [(t - p)%Q].
Proof.
  induction ts as [| a ts IH]; [discriminate |].
  destruct ts as [| b ts]; intros Hlast.
  - injection Hlast as ->. reflexivity.
  - change (deltas ((a :: b :: ts) ++ [t]))
      with ((b - a)%Q :: deltas ((b :: ts) ++ [t])).
    rewrite IH by exact Hlast. reflexivity.
Qed.

Lemma deltas_length (ts : list Q) :
  length (deltas ts) = (length ts - 1)%nat.
Proof.
  unfold deltas. rewrite length_zip_with.
  destruct ts; cbn [tail length]; lia.
Qed.

Lemma increasing_cons (R : Q -> Q -> Prop) (a b : Q) (ts : list Q) :
  (forall (i : nat) (x y : Q),
      (a :: b :: ts) !! i = Some x -> (a :: b :: ts) !! S i = Some y ->
      R x y) ->
  R a b /\
  (forall (i : nat) (x y : Q),
      (b :: ts) !! i = Some x -> (b :: ts) !! S i = Some y -> R x y).
Proof.
  intros H. split.
  - apply (H 0%nat); reflexivity.
  - intros i x y Hx Hy. apply (H (S i)); assumption.
Qed.

Lemma deltas_positive (ts : list Q) :
  strictly_increasing ts -> Forall (fun d => (0 < d)%Q) (deltas ts).
Proof.
  induction ts as [| a ts IH]; [constructor |].
  destruct ts as [| b ts]; [constructor |].
  intros [Hab Hrest]%increasing_cons.
  change (deltas (a :: b :: ts)) with ((b - a)%Q :: deltas (b :: ts)).
  constructor; [| exact (IH Hrest)].
  unfold Qminus. rewrite <- Qlt_minus_iff. exact Hab.
Qed.

Lemma deltas_nonnegative (ts : list Q) :
  nondecreasing ts -> Forall (fun d => (0 <= d)%Q) (deltas ts).
Proof.
  induction ts as [| a ts IH]; [constructor |].
  destruct ts as [| b ts]; [constructor |].
  intros [Hab Hrest]%increasing_cons.
  change (deltas (a :: b :: ts)) with ((b - a)%Q :: deltas (b :: ts)).
  constructor; [| exact (IH Hrest)].
  unfold Qminus. rewrite <- Qle_minus_iff. exact Hab.
Qed.

Lemma increasing_prefix (R : Q -> Q -> Prop) (l1 l2 : list Q) :
  (forall (i : nat) (x y : Q),
      (l1 ++ l2) !! i = Some x -> (l1 ++ l2) !! S i = Some y -> R x y) ->
  forall (i : nat) (x y : Q),
    l1 !! i = Some x -> l1 !! S i = Some y -> R x y.
Proof.
  intros H i x y Hx Hy.
  apply (H i); apply lookup_app_l_Some; assumption.
Qed.

Lemma strictly_increasing_take (i : nat) (ts : list Q) :
  strictly_increasing ts -> strictly_increasing (take i ts).
Proof.
  intros H. unfold strictly_increasing in *.
  apply (increasing_prefix Qlt (take i ts) (drop i ts)).
  rewrite take_drop. exact H.
Qed.

Lemma strictly_increasing_app_l (l1 l2 : list Q) :
  strictly_increasing (l1 ++ l2) -> strictly_increasing l1.
Proof. unfold strictly_increasing. apply (increasing_prefix Qlt). Qed.

Lemma nondecreasing_app_l (l1 l2 : list Q) :
  nondecreasing (l1 ++ l2) -> nondecreasing l1.
Proof. unfold nondecreasing. apply (increasing_prefix Qle). Qed.

(** [sum] of non-negative numbers, with any start value. *)
Lemma fold_plus_ge (l : list Q) (a : Q) :
  Forall (fun d => (0 <= d)%Q) l -> (a <= fold_left Qplus l a)%Q.
Proof.
  revert a. induction l as [| x l IH]; intros a Hl; cbn.
  - apply Qle_refl.
  - inversion Hl as [| ? ? Hx Hl']; subst.
    eapply Qle_trans; [| apply IH, Hl'].
    rewrite <- (Qplus_0_r a) at 1.
    apply Qplus_le_r. exact Hx.
Qed.

Lemma fold_plus_stays (l : list Q) (a : Q) :
  Forall (fun d => (0 <= d)%Q) l ->
  (fold_left Qplus l a == a)%Q <-> Forall (fun d => (d == 0)%Q) l.
Proof.
  revert a. induction l as [| x l IH]; intros a Hl; cbn.
  - split; [constructor | reflexivity].
  - inversion Hl as [| ? ? Hx Hl']; subst. split.
    + intros Hsum.
      assert (Hx0 : (x == 0)%Q).
      { apply Qle_antisym; [| exact Hx].
        apply (Qplus_le_r _ _ a). rewrite Qplus_0_r.
        rewrite <- Hsum at 2. apply fold_plus_ge, Hl'. }
      constructor; [exact Hx0 |].
      apply (IH (a + x)%Q Hl').
      rewrite Hsum, Hx0, Qplus_0_r. reflexivity.
    + intros Hz. inversion Hz as [| ? ? Hx0 Hz']; subst.
      transitivity (a + x)%Q.
      * apply (IH (a + x)%Q Hl'), Hz'.
      * rewrite Hx0, Qplus_0_r. reflexivity.
Qed.

Lemma sum_zero_iff (l : list Q) :
  Forall (fun d => (0 <= d)%Q) l ->
  (sum l == 0)%Q <-> Forall (fun d => (d == 0)%Q) l.
Proof. apply fold_plus_stays. Qed.

Lemma sum_positive (l : list Q) :
  l <> [] -> Forall (fun d => (0 < d)%Q) l -> ~ (sum l == 0)%Q.
Proof.
  intros Hne Hpos Hsum.
  assert (Hnn : Forall (fun d => (0 <= d)%Q) l).
  { eapply Forall_impl; [exact Hpos |]. intros d. apply Qlt_le_weak. }
  apply (sum_zero_iff l Hnn) in Hsum.
  destruct l as [| x l]; [congruence |].
  inversion Hpos as [| ? ? Hx _]; inversion Hsum as [| ? ? Hx0 _]; subst.
  rewrite Hx0 in Hx. exact (Qlt_irrefl 0 Hx).
Qed.

Lemma truediv_ok (a b : Q) : ~ (b == 0)%Q -> truediv a b = Ok (a / b)%Q.
Proof.
  intros Hb. unfold truediv.
  destruct (Qeq_bool b 0) eqn:E; [| reflexivity].
  apply Qeq_bool_iff in E. contradiction.
Qed.

Lemma truediv_raise (a b : Q) :
  (b == 0)%Q -> truediv a b = Raise ZeroDivisionError.
Proof.
  intros Hb. unfold truediv.
  apply Qeq_bool_iff in Hb. rewrite Hb. reflexivity.
Qed.

Lemma truediv_raise_iff (a b : Q) :
  truediv a b = Raise ZeroDivisionError <-> (b == 0)%Q.
Proof.
  split; [| apply truediv_raise].
  unfold truediv. destruct (Qeq_bool b 0) eqn:E; [| discriminate].
  intros _. apply Qeq_bool_iff, E.
Qed.

Lemma advances_snoc (g : generator) (clock : list Q) (t : Q) :
  advances g (clock ++ [t])
  = (fst (advances g clock) ++ [fst (next (snd (advances g clock)) t)],
     snd (next (snd (advances g clock)) t)).
Proof.
  revert g. induction clock as [| now clock IH]; intros g; cbn.
  - destruct (next g t); reflexivity.
  - destruct (next g now) as [r g']. rewrite IH.
    destruct (advances g' clock) as [rs g'']. reflexivity.
Qed.

Lemma advances_app_fst (g : generator) (c1 c2 : list Q) :
  fst (advances g (c1 ++ c2))
  = fst (advances g c1) ++ fst (advances (snd (advances g c1)) c2).
Proof.
  revert g. induction c1 as [| now c1 IH]; intros g; cbn.
  - reflexivity.
  - destruct (next g now) as [r g']. specialize (IH g').
    destruct (advances g' (c1 ++ c2)) as [rs g''].
    destruct (advances g' c1) as [rs1 g1]. cbn in *.
    rewrite IH. reflexivity.
Qed.

Lemma advances_length (g : generator) (clock : list Q) :
  length (fst (advances g clock)) = length clock.
Proof.
  revert g. induction clock as [| now clock IH]; intros g; cbn.
  - reflexivity.
  - destruct (next g now) as [r g']. specialize (IH g').
    destruct (advances g' clock). cbn in *. lia.
Qed.

(** One advance of a parked generator whose window holds the last [n]
    deltas of the history [ds]. *)
Lemma next_suspended (n : nat) (ds : list Q) (prev t : Q) :
  next (Suspended (Deque.mk (last_n n ds) n) prev) t
  = let w := last_n n (ds ++ [(t - prev)%Q]) in
    match truediv (len w) (sum w) with
    | Ok fps => (Ok fps, Suspended (Deque.mk w n) t)
    | Raise e => (Raise e, Finished)
    end.
Proof. cbn [next]. rewrite append_last_n. reflexivity. Qed.

Lemma next_not_created (g : generator) (t : Q) (n : nat) :
  snd (next g t) <> Created n.
Proof.
  destruct g as [m | d prev |]; cbn; try discriminate.
  destruct (truediv _ _); discriminate.
Qed.

Lemma advances_created (n m : nat) (clock : list Q) :
  snd (advances (Created n) clock) = Created m -> clock = [] /\ m = n.
Proof.
  destruct clock as [| t clock _] using rev_ind; cbn.
  - intros [= ->]. split; reflexivity.
  - rewrite advances_snoc. cbn [snd]. intros H.
    exfalso. exact (next_not_created _ _ _ H).
Qed.

(** A generator parked after the readings [clock] holds the last [n] of
    their deltas, and the last reading as [prev]. *)
Lemma advances_suspended (n : nat) (clock : list Q) (d : Deque.deque)
    (prev : Q) :
  snd (advances (Created n) clock) = Suspended d prev ->
  d = Deque.mk (last_n n (deltas clock)) n /\ last clock = Some prev.
Proof.
  revert d prev. induction clock as [| t clock IH] using rev_ind;
    intros d prev; [discriminate |].
  rewrite advances_snoc. cbn [snd].
  destruct (snd (advances (Created n) clock)) as [m | d' prev' |] eqn:Eg.
  - apply advances_created in Eg as [-> ->]. cbn.
    intros [= <- <-]. split; reflexivity.
  - destruct (IH d' prev' eq_refl) as [-> Hlast].
    rewrite next_suspended. cbn zeta.
    rewrite <- (deltas_snoc clock prev' t Hlast).
    destruct (truediv _ _); cbn [snd]; [| discriminate].
    intros [= <- <-]. split; [reflexivity | apply last_snoc].
  - discriminate.
Qed.

(** With a capacity and a clock that moves between calls the generator
    never raises. *)
Lemma advances_increasing (n : nat) (clock : list Q) :
  (0 < n)%nat -> strictly_increasing clock -> clock <> [] ->
  exists prev,
    snd (advances (Created n) clock)
    = Suspended (Deque.mk (last_n n (deltas clock)) n) prev
    /\ last clock = Some prev.
Proof.
  intros Hn. induction clock as [| t clock IH] using rev_ind;
    [congruence |].
  intros Hinc _. rewrite advances_snoc. cbn [snd].
  destruct clock as [| t0 clock'].
  - exists t. split; [reflexivity | reflexivity].
  - destruct IH as (prev & Eg & Hlast);
      [exact (strictly_increasing_app_l _ _ Hinc) | discriminate |].
    rewrite Eg, next_suspended. cbn zeta.
    rewrite <- (deltas_snoc _ prev t Hlast).
    rewrite truediv_ok.
    + exists t. split; [reflexivity | apply last_snoc].
    + apply sum_positive.
      * intros Hnil. apply (f_equal length) in Hnil.
        rewrite last_n_length, deltas_length, length_app in Hnil.
        cbn in Hnil. lia.
      * apply Forall_drop, deltas_positive, Hinc.
Qed.

(** The result of the [i]-th advance (counted from 1) of a fresh generator
    over the readings [ts]. *)
Lemma advances_lookup (g : generator) (ts : list Q) (i : nat) (t : Q) :
  ts !! i = Some t ->
  fst (advances g ts) !! i
  = Some (fst (next (snd (advances g (take i ts))) t)).
Proof.
  intros Ht.
  rewrite <- (take_drop (S i) ts) at 1.
  rewrite (take_S_r ts i t Ht).
  rewrite advances_app_fst, advances_snoc. cbn [fst snd].
  assert (Hlen : length (fst (advances g (take i ts))) = i).
  { rewrite advances_length, length_take.
    apply lookup_lt_Some in Ht. lia. }
  rewrite lookup_app_l by (rewrite length_app, Hlen; cbn; lia).
  rewrite lookup_app_r by lia.
  rewrite Hlen, Nat.sub_diag. reflexivity.
Qed.



(** The window of a generator reached from a fresh one never outgrows the
    capacity. *)
Lemma reachable_window_bounded (n : nat) (clock w : list Q) :
  Fps.window (snd (advances (avg_fps_counter n) clock)) = Some w ->
  (length w <= n)%nat.
Proof.
  unfold avg_fps_counter.
  destruct (snd (advances (Created n) clock)) as [m | d prev |] eqn:Eg;
    cbn; try discriminate.
  apply advances_suspended in Eg as [-> _]. cbn.
  intros [= <-]. rewrite last_n_length. lia.
Qed.

(** C2.  The window of [avg_fps_counter(N)], [N > 0], holds at most [N]
    deltas after any number of advances.  An advance that finds [N] deltas
    in the window drops the oldest one and puts the new delta behind the
    others; an advance that finds fewer drops nothing.  The rate is
    computed from the window so updated. *)
Theorem C2_window_bounded_fifo (N : nat) :
  (0 < N)%nat ->
  (forall clock w : list Q,
      Fps.window (snd (advances (avg_fps_counter N) clock)) = Some w ->
      (length w <= N)%nat) /\
  (forall (clock : list Q) (d : Deque.deque) (prev now : Q),
      snd (advances (avg_fps_counter N) clock) = Suspended d prev ->
      let w' := Deque.items (Deque.append d (now - prev)%Q) in
      (length (Deque.items d) = N ->
       exists (oldest : Q) (rest : list Q),
         Deque.items d = oldest :: rest
         /\ w' = rest ++ [(now - prev)%Q]) /\
      ((length (Deque.items d) < N)%nat ->
       w' = Deque.items d ++ [(now - prev)%Q]) /\
      next (Suspended d prev) now
      = match truediv (len w') (sum w') with
        | Ok fps => (Ok fps, Suspended (Deque.mk w' N) now)
        | Raise e => (Raise e, Finished)
        end).
Proof.
  intros HN. split; [intros clock w; apply reachable_window_bounded |].
  intros clock d prev now Eg w'.
  apply advances_suspended in Eg as [-> _]. subst w'.
  unfold Deque.append. cbn [Deque.items Deque.maxlen].
  rewrite length_app. cbn [length]. repeat split.
  - intros Hfull.
    destruct (last_n N (deltas clock)) as [| oldest rest] eqn:Ew;
      [cbn in Hfull; lia |].
    exists oldest, rest. split; [reflexivity |].
    rewrite Hfull. destruct (Nat.ltb_spec N (N + 1)); [reflexivity | lia].
  - intros Hroom.
    destruct (Nat.ltb_spec N (length (last_n N (deltas clock)) + 1));
      [lia | reflexivity].
  - cbn [next]. unfold Deque.append. cbn [Deque.items Deque.maxlen].
    rewrite length_app. cbn [length]. reflexivity.
Qed.

(** C2 at capacity 2. *)
Lemma C2_window_bounded_fifo_witness :
  (0 < 2)%nat /\
  forall clock w : list Q,
    Fps.window (snd (advances (avg_fps_counter 2) clock)) = Some w ->
    (length w <= 2)%nat.
Proof.
  split; [lia |]. refine (proj1 (C2_window_bounded_fifo 2 _)). lia.
Defined.

(** C7.  Under a clock that never runs backwards, an advance of a parked
    generator raises [ZeroDivisionError] exactly when every delta in the
    window, the new one included, is zero; the exception leaves the
    generator, which is finished.  Two advances that read the same clock
    value are such a case. *)
Theorem C7_zero_division (N : nat) (clock : list Q) (now : Q)
    (d : Deque.deque) (prev : Q) :
  nondecreasing (clock ++ [now]) ->
  snd (advances (avg_fps_counter N) clock) = Suspended d prev ->
  let w := Deque.items (Deque.append d (now - prev)%Q) in
  (fst (next (Suspended d prev) now) = Raise ZeroDivisionError
   <-> Forall (fun x => (x == 0)%Q) w) /\
  (Forall (fun x => (x == 0)%Q) w ->
   next (Suspended d prev) now = (Raise ZeroDivisionError, Finished)) /\
  (forall t : Q,
      advances (avg_fps_counter N) [t; t]
      = ([Ok 0%Q; Raise ZeroDivisionError], Finished)).
Proof.
  intros Hmono Eg w.
  apply advances_suspended in Eg as [-> Hlast]. subst w.
  rewrite append_last_n, next_suspended. cbn zeta. cbn [Deque.items].
  rewrite <- (deltas_snoc clock prev now Hlast).
  pose proof (Forall_drop _ (length (deltas (clock ++ [now])) - N)%nat _
                (deltas_nonnegative _ Hmono)) as Hnn.
  fold (last_n N (deltas (clock ++ [now]))) in Hnn.
  set (w := last_n N (deltas (clock ++ [now]))) in *.
  split; [| split].
  - rewrite <- (sum_zero_iff w Hnn), <- (truediv_raise_iff (len w)).
    destruct (truediv (len w) (sum w)) as [fps | e]; cbn [fst];
      split; congruence.
  - intros Hz. apply (sum_zero_iff w Hnn) in Hz.
    rewrite (truediv_raise _ _ Hz). reflexivity.
  - intros t. unfold avg_fps_counter. cbn [advances next].
    rewrite truediv_raise; [reflexivity |].
    unfold Deque.append, Deque.new.
    cbn [Deque.items Deque.maxlen app length].
    destruct (N <? 1)%nat; cbn [tail]; unfold sum; cbn [fold_left];
      [reflexivity | ring].
Qed.

(** C7 on the readings 0, 1, 1 with capacity 1: the third advance finds
    the single delta 1 - 1 in its window and raises. *)
Lemma C7_zero_division_witness :
  nondecreasing ([0; 1] ++ [1])%Q /\
  fst (next (Suspended (Deque.mk [1 - 0]%Q 1) 1%Q) 1%Q)
  = Raise ZeroDivisionError.
Proof.
  assert (Hmono : nondecreasing ([0; 1] ++ [1])%Q).
  { intros [| [| [| i]]] a b Ha Hb; cbn in Ha, Hb; try discriminate;
      injection Ha as <-; injection Hb as <-; discriminate. }
  split; [exact Hmono |].
  refine (proj2 (proj1 (C7_zero_division 1 [0; 1]%Q 1%Q
                          (Deque.mk [1 - 0]%Q 1) 1%Q Hmono _)) _).
  - reflexivity.
  - repeat constructor.
Defined.

End fps.

(** ** The skeleton renderer *)

Section render.

Import Render.

Lemma for_in_pure {S A L} (body : A -> L -> Eff.M S L)
    (F : A -> L -> L) (G : A -> S -> S) :
  (forall x acc s, body x acc s = (Ok (F x acc), G x s)) ->
  forall l acc s,
    Eff.for_in l body acc s
    = (Ok (fold_left (fun a x => F x a) l acc),
       fold_left (fun s x => G x s) l s).
Proof.
  intros Hbody l. induction l as [| x l IH]; intros acc s; cbn.
  - reflexivity.
  - unfold Eff.bind. rewrite Hbody. apply IH.
Qed.

Lemma lt_qualifies (threshold : Q) (kp : Keypoint) :
  lt (score kp) threshold = negb (qualifies threshold kp).
Proof. reflexivity. Qed.

Lemma fold_record (src_size : Z * Z) (box : Q * Q * Q * Q) (threshold : Q)
    (kps : list (string * Keypoint)) (xys : gmap string (Z * Z)) :
  fold_left (fun a x => record_position src_size box threshold x a) kps xys
  = record_all src_size box (qualifying threshold kps) xys.
Proof.
  revert xys. induction kps as [| x kps IH]; intros xys; cbn.
  - reflexivity.
  - unfold record_position at 2. rewrite lt_qualifies.
    destruct (qualifies threshold x.2); cbn; apply IH.
Qed.

Lemma fold_circles (src_size : Z * Z) (box : Q * Q * Q * Q) (color : string)
    (threshold : Q) (kps : list (string * Keypoint)) (s : objects) :
  fold_left (fun s x => with_circle src_size box color threshold x s) kps s
  = {| elements := elements s
                   ++ map (circle_of src_size box color)
                          (qualifying threshold kps).*2;
       keypoints := keypoints s;
       stdout := stdout s |}.
Proof.
  revert s. induction kps as [| x kps IH]; intros s; cbn.
  - rewrite app_nil_r. destruct s; reflexivity.
  - unfold with_circle at 2. rewrite lt_qualifies.
    destruct (qualifies threshold x.2); cbn; rewrite IH; cbn.
    + rewrite <- app_assoc. reflexivity.
    + reflexivity.
Qed.

Lemma fold_lines (xys : gmap string (Z * Z)) (color : string)
    (edges : list (string * string)) (s : objects) :
  fold_left (fun s e => with_line xys color e s) edges s
  = {| elements := elements s ++ omap (edge_line xys color) edges;
       keypoints := keypoints s;
       stdout := stdout s |}.
Proof.
  revert s. induction edges as [| e edges IH]; intros s; cbn.
  - rewrite app_nil_r. destruct s; reflexivity.
  - rewrite IH. unfold with_line.
    destruct (edge_line xys color e); cbn.
    + rewrite <- app_assoc. reflexivity.
    + reflexivity.
Qed.

(** A call with a box of zero width or height raises before it draws. *)
Lemma draw_pose_raises (src_size : Z * Z) (offset_x offset_y box_w box_h : Q)
    (color : string) (threshold : Q) (o : objects) :
  (box_w == 0)%Q \/ (box_h == 0)%Q ->
  draw_pose src_size (offset_x, offset_y, box_w, box_h) color threshold o
  = (Raise ZeroDivisionError,
     {| elements := elements o;
        keypoints := keypoints o;
        stdout := stdout o ++ [(offset_x, offset_y, box_w, box_h)] |}).
Proof.
  intros Hz.
  unfold draw_pose, Eff.bind, print_inf_box, Eff.modify, Eff.lift.
  cbn [fst snd].
  destruct (Qeq_bool box_w 0) eqn:Ew.
  - apply Qeq_bool_iff in Ew. rewrite (truediv_raise _ _ Ew). reflexivity.
  - rewrite truediv_ok by (apply Qeq_bool_neq, Ew).
    destruct Hz as [Hz | Hz].
    + apply Qeq_bool_iff in Hz. congruence.
    + rewrite (truediv_raise _ _ Hz). reflexivity.
Qed.

(** A call with a box of non-zero width and height returns, having added
    the circles of the first loop and then the lines of the second. *)
Lemma draw_pose_returns (src_size : Z * Z) (box : Q * Q * Q * Q)
    (color : string) (threshold : Q) (o : objects) :
  nonzero box ->
  draw_pose src_size box color threshold o
  = (Ok tt,
     {| elements :=
          elements o
          ++ map (circle_of src_size box color)
                 (qualifying threshold (keypoints o)).*2
          ++ omap (edge_line
                     (record_all src_size box
                        (qualifying threshold (keypoints o)) ∅) color)
                  EDGES;
        keypoints := keypoints o;
        stdout := stdout o ++ [box] |}).
Proof.
  destruct src_size as [src_w src_h].
  destruct box as [[[offset_x offset_y] box_w] box_h]. intros [Hw Hh].
  unfold draw_pose, Eff.bind, print_inf_box, Eff.modify, Eff.lift, Eff.get.
  cbn [fst snd]. rewrite !truediv_ok by assumption.
  cbn [elements keypoints stdout].
  rewrite (for_in_pure _
             (record_position (src_w, src_h)
                (offset_x, offset_y, box_w, box_h) threshold)
             (with_circle (src_w, src_h)
                (offset_x, offset_y, box_w, box_h) color threshold)).
  2:{ intros [label keypoint] xys s.
      unfold record_position, with_circle. cbn [fst snd].
      destruct (lt (score keypoint) threshold); reflexivity. }
  rewrite fold_record, fold_circles. cbn [elements keypoints stdout].
  set (xys := record_all _ _ _ _).
  rewrite (for_in_pure _ (fun _ _ => tt) (with_line xys color)).
  2:{ intros [a b] [] s. unfold with_line, edge_line. cbn [fst snd].
      destruct (xys !! a) as [[ax ay] |]; [| reflexivity].
      destruct (xys !! b) as [[bx by'] |]; reflexivity. }
  rewrite fold_lines. cbn [elements keypoints stdout].
  rewrite <- app_assoc. reflexivity.
Qed.

Lemma qualifying_spec (threshold : Q) (kps : list (string * Keypoint))
    (x : string * Keypoint) :
  x ∈ qualifying threshold kps <-> x ∈ kps /\ (threshold <= score x.2)%Q.
Proof.
  unfold qualifying, qualifies.
  rewrite !list_elem_of_In, filter_In, Qle_bool_iff. reflexivity.
Qed.

Lemma below_threshold (threshold : Q) (kp : Keypoint) :
  (score kp < threshold)%Q -> qualifies threshold kp = false.
Proof.
  intros Hlt. unfold qualifies.
  destruct (Qle_bool threshold (score kp)) eqn:E; [| reflexivity].
  apply Qle_bool_iff in E. exfalso. exact (Qlt_not_le _ _ Hlt E).
Qed.

Lemma qualifying_labels_NoDup (threshold : Q)
    (kps : list (string * Keypoint)) :
  dict_ok kps -> NoDup (qualifying threshold kps).*1.
Proof.
  unfold dict_ok. induction kps as [| x kps IH]; cbn; [constructor |].
  intros [Hx Hkps]%NoDup_cons.
  destruct (qualifies threshold x.2); [| exact (IH Hkps)].
  cbn. constructor; [| exact (IH Hkps)].
  intros Hin. apply Hx.
  apply list_elem_of_fmap in Hin as (y & -> & Hy).
  apply qualifying_spec in Hy as [Hy _].
  apply list_elem_of_fmap. exists y. split; [reflexivity | exact Hy].
Qed.


Lemma record_all_lookup (src_size : Z * Z) (box : Q * Q * Q * Q)
    (l : list (string * Keypoint)) (xys : gmap string (Z * Z))
    (k : string) (p : Z * Z) :
  record_all src_size box l xys !! k = Some p ->
  xys !! k = Some p
  \/ exists kp, (k, kp) ∈ l /\ p = position src_size box kp.
Proof.
  unfold record_all.
  revert xys. induction l as [| [k' kp'] l IH]; intros xys; cbn.
  - intros H. left. exact H.
  - intros H. apply IH in H as [H | (kp & Hin & ->)].
    + apply lookup_insert_Some in H as [[<- <-] | [_ H]].
      * right. exists kp'. split; [left | reflexivity].
      * left. exact H.
    + right. exists kp. split; [right; exact Hin | reflexivity].
Qed.

Lemma record_all_is_Some (src_size : Z * Z) (box : Q * Q * Q * Q)
    (l : list (string * Keypoint)) (xys : gmap string (Z * Z))
    (k : string) :
  is_Some (record_all src_size box l xys !! k)
  <-> is_Some (xys !! k) \/ k ∈ l.*1.
Proof.
  unfold record_all.
  revert xys. induction l as [| [k' kp'] l IH]; intros xys; cbn.
  - split; [intros H; left; exact H | intros [H | H]; [exact H |]].
    inversion H.
  - rewrite IH, lookup_insert_is_Some, elem_of_cons. cbn.
    destruct (decide (k' = k)) as [-> | Hne]; intuition congruence.
Qed.

(** The lines of the second loop, one per drawn edge, in list order. *)
Lemma lines_of_edges (src_size : Z * Z) (box : Q * Q * Q * Q)
    (color : string) (threshold : Q) (kps : list (string * Keypoint))
    (edges : list (string * string)) :
  Forall2 (line_of src_size box color threshold kps)
    (List.filter
       (fun e => bool_decide (e.1 ∈ (qualifying threshold kps).*1)
                 && bool_decide (e.2 ∈ (qualifying threshold kps).*1))
       edges)
    (omap (edge_line
             (record_all src_size box (qualifying threshold kps) ∅) color)
          edges).
Proof.
  set (xys := record_all _ _ _ _).
  assert (Hdom : forall k, is_Some (xys !! k)
                           <-> k ∈ (qualifying threshold kps).*1).
  { intros k. unfold xys. rewrite record_all_is_Some, lookup_empty.
    split; [intros [[? [=]] | H]; exact H | intros H; right; exact H]. }
  assert (Hpos : forall k p, xys !! k = Some p ->
            exists kp, (k, kp) ∈ qualifying threshold kps
                       /\ p = position src_size box kp).
  { intros k p H. apply record_all_lookup in H as [H | H]; [| exact H].
    rewrite lookup_empty in H. discriminate. }
  induction edges as [| [a b] edges IH]; cbn; [constructor |].
  unfold edge_line at 1. cbn [fst snd].
  destruct (xys !! a) as [p |] eqn:Ea.
  - rewrite (bool_decide_eq_true_2 _ (proj1 (Hdom a) (mk_is_Some _ _ Ea))).
    destruct (xys !! b) as [q |] eqn:Eb.
    + rewrite (bool_decide_eq_true_2 _ (proj1 (Hdom b) (mk_is_Some _ _ Eb))).
      cbn. constructor; [| exact IH].
      destruct (Hpos a p Ea) as (ka & Ha & ->).
      destruct (Hpos b q Eb) as (kb & Hb & ->).
      exists ka, kb. repeat split; assumption.
    + rewrite (bool_decide_eq_false_2 (b ∈ _)), andb_false_r; [exact IH |].
      intros Hin. apply Hdom in Hin as [? Hin]. congruence.
  - rewrite (bool_decide_eq_false_2 (a ∈ _)); [exact IH |].
    intros Hin. apply Hdom in Hin as [? Hin]. congruence.
Qed.

Lemma filter_circles_lines (cs ls : list Svg.element) :
  Forall (fun e => Svg.is_circle e = true) cs ->
  Forall (fun e => Svg.is_line e = true) ls ->
  List.filter Svg.is_circle (cs ++ ls) = cs
  /\ List.filter Svg.is_line (cs ++ ls) = ls.
Proof.
  intros Hcs Hls. rewrite !List.filter_app. split.
  - replace (List.filter Svg.is_circle ls) with (@nil Svg.element).
    + rewrite app_nil_r. apply forallb_filter_id.
      apply forallb_forall. intros e He.
      rewrite Forall_forall in Hcs. apply Hcs, list_elem_of_In, He.
    + symmetry. induction Hls as [| e ls He _ IH]; [reflexivity |].
      cbn. destruct e; try discriminate. exact IH.
  - replace (List.filter Svg.is_line cs) with (@nil Svg.element).
    + cbn. apply forallb_filter_id.
      apply forallb_forall. intros e He.
      rewrite Forall_forall in Hls. apply Hls, list_elem_of_In, He.
    + symmetry. induction Hcs as [| e cs He _ IH]; [reflexivity |].
      cbn. destruct e; try discriminate. exact IH.
Qed.

Lemma circles_are_circles (src_size : Z * Z) (box : Q * Q * Q * Q)
    (color : string) (kps : list Keypoint) :
  Forall (fun e => Svg.is_circle e = true)
         (map (circle_of src_size box color) kps).
Proof. apply Forall_fmap, Forall_true. reflexivity. Qed.

Lemma lines_are_lines (xys : gmap string (Z * Z)) (color : string)
    (edges : list (string * string)) :
  Forall (fun e => Svg.is_line e = true) (omap (edge_line xys color) edges).
Proof.
  induction edges as [| e edges IH]; cbn; [constructor |].
  unfold edge_line at 1.
  destruct (xys !! e.1); [| exact IH].
  destruct (xys !! e.2); [| exact IH].
  constructor; [reflexivity | exact IH].
Qed.

(** The whole effect of a call that returns, in the vocabulary of the
    statements. *)
Lemma draw_pose_effect (src_size : Z * Z) (box : Q * Q * Q * Q)
    (color : string) (threshold : Q) (o : objects) :
  nonzero box ->
  exists (o' : objects) (lines : list Svg.element),
    draw_pose src_size box color threshold o = (Ok tt, o')
    /\ new_elements o o'
       = map (circle_of src_size box color)
             (qualifying threshold (keypoints o)).*2 ++ lines
    /\ List.filter Svg.is_circle (new_elements o o')
       = map (circle_of src_size box color)
             (qualifying threshold (keypoints o)).*2
    /\ List.filter Svg.is_line (new_elements o o') = lines
    /\ Forall2 (line_of src_size box color threshold (keypoints o))
               (drawn_edges threshold (keypoints o)) lines
    /\ keypoints o' = keypoints o
    /\ stdout o' = stdout o ++ [box].
Proof.
  intros Hbox. eexists. eexists.
  split; [apply draw_pose_returns, Hbox |].
  unfold new_elements. cbn [elements keypoints stdout].
  rewrite drop_app_length.
  split; [reflexivity |].
  destruct (filter_circles_lines
              (map (circle_of src_size box color)
                   (qualifying threshold (keypoints o)).*2)
              (omap (edge_line
                       (record_all src_size box
                          (qualifying threshold (keypoints o)) ∅) color)
                    EDGES)
              (circles_are_circles _ _ _ _)
              (lines_are_lines _ _ _)) as [-> ->].
  repeat split. apply lines_of_edges.
Qed.

End render.

(** *** Statements about the renderer *)

Section render_statements.

Import Render.

Lemma circle_centres_circles (src_size : Z * Z) (box : Q * Q * Q * Q)
    (color : string) (kps : list Keypoint) (ls : list Svg.element) :
  Forall (fun e => Svg.is_line e = true) ls ->
  circle_centres (map (circle_of src_size box color) kps ++ ls)
  = map (position src_size box) kps.
Proof.
  intros Hls. unfold circle_centres. rewrite omap_app.
  replace (omap _ ls) with (@nil (Z * Z)).
  - rewrite app_nil_r. induction kps as [| kp kps IH]; cbn; [reflexivity |].
    f_equal. exact IH.
  - symmetry. induction Hls as [| e ls He _ IH]; [reflexivity |].
    destruct e; try discriminate. exact IH.
Qed.

Lemma example_pose_dict_ok : dict_ok example_pose.
Proof.
  unfold dict_ok. apply (bool_decide_unpack _). vm_compute. exact I.
Qed.


(** The examples draw the example pose with the default colour and
    threshold, source (640, 480) and box (0, 0, 320, 240). *)
Lemma example_box_nonzero : nonzero (0, 0, 320, 240)%Q.
Proof. split; discriminate. Qed.




(** C9.  [shadow_text] adds two text elements to the canvas and nothing
    else: the text in black at [(x + 1, y + 1)], then the text in white at
    [(x, y)].  What it adds is the same on every canvas, so also at every
    call. *)
Theorem C9_shadow_text (x y : Z) (text : string) (font_size : Z) :
  let shadowed :=
    [Svg.text text (x + 1, y + 1) "black" font_size "font-family:sans-serif";
     Svg.text text (x, y) "white" font_size "font-family:sans-serif"] in
  (forall o : objects,
      shadow_text x y text font_size o
      = (Ok tt,
         {| elements := elements o ++ shadowed;
            keypoints := keypoints o;
            stdout := stdout o |})) /\
  (forall o1 o2 : objects,
      new_elements o1 (snd (shadow_text x y text font_size o1))
      = new_elements o2 (snd (shadow_text x y text font_size o2))) /\
  (forall o : objects,
      elements (snd (shadow_text x y text font_size
                       (snd (shadow_text x y text font_size o))))
      = elements o ++ shadowed ++ shadowed).
Proof.
  intros shadowed.
  assert (Hrun : forall o : objects,
             shadow_text x y text font_size o
             = (Ok tt,
                {| elements := elements o ++ shadowed;
                   keypoints := keypoints o;
                   stdout := stdout o |})).
  { intros o. unfold shadow_text, Eff.bind, add, Eff.modify. cbn.
    rewrite <- app_assoc. reflexivity. }
  split; [exact Hrun |]. split.
  - intros o1 o2. rewrite !Hrun. unfold new_elements. cbn [snd elements].
    rewrite !drop_app_length. reflexivity.
  - intros o. rewrite !Hrun. cbn [snd elements].
    rewrite <- app_assoc. reflexivity.
Qed.

(** C10.  Whatever the call returns, each line it adds runs between the
    display positions of two keypoints of the pose whose scores reach the
    threshold and whose labels are the two ends of an edge of the fixed
    list, and the call added a circle at each of the two positions. *)
Theorem C10_line_endpoints (src_size : Z * Z) (box : Q * Q * Q * Q)
    (color : string) (threshold : Q) (o : objects)
    (p q : Z * Z) (stroke : string) (stroke_width : Z) :
  let o' := snd (draw_pose src_size box color threshold o) in
  Svg.line p q stroke stroke_width ∈ new_elements o o' ->
  exists (a b : string) (ka kb : Keypoint),
    (a, b) ∈ EDGES
    /\ (a, ka) ∈ keypoints o /\ (threshold <= score ka)%Q
    /\ (b, kb) ∈ keypoints o /\ (threshold <= score kb)%Q
    /\ p = position src_size box ka
    /\ q = position src_size box kb
    /\ Svg.circle p 5 "cyan" (score ka) color ∈ new_elements o o'
    /\ Svg.circle q 5 "cyan" (score kb) color ∈ new_elements o o'.
Proof.
  intros o'. subst o'.
  destruct box as [[[offset_x offset_y] box_w] box_h].
  destruct (Qeq_bool box_w 0) eqn:Ew.
  { apply Qeq_bool_iff in Ew.
    rewrite draw_pose_raises by (left; exact Ew).
    unfold new_elements. cbn [snd elements]. rewrite drop_all.
    intros H. inversion H. }
  destruct (Qeq_bool box_h 0) eqn:Eh.
  { apply Qeq_bool_iff in Eh.
    rewrite draw_pose_raises by (right; exact Eh).
    unfold new_elements. cbn [snd elements]. rewrite drop_all.
    intros H. inversion H. }
  apply Qeq_bool_neq in Ew, Eh.
  destruct (draw_pose_effect src_size (offset_x, offset_y, box_w, box_h)
              color threshold o (conj Ew Eh))
    as (o' & lines & Hrun & Hnew & _ & _ & Hedges & _).
  rewrite Hrun. cbn [snd]. rewrite Hnew.
  intros [Hin | Hin]%elem_of_app.
  { apply list_elem_of_fmap in Hin as (kp & Hkp & _). discriminate. }
  destruct (proj1 (list_elem_of_lookup _ _) Hin) as [i Hi].
  destruct (Forall2_lookup_r _ _ _ _ _ Hedges Hi)
    as ([a b] & He & ka & kb & Ha & Hb & Hline).
  cbn [fst snd] in Ha, Hb. injection Hline as -> -> _ _.
  exists a, b, ka, kb.
  assert (HE : (a, b) ∈ EDGES).
  { apply list_elem_of_lookup_2 in He. unfold drawn_edges in He.
    apply list_elem_of_In, filter_In in He as [He _].
    apply list_elem_of_In, He. }
  pose proof (proj1 (qualifying_spec _ _ _) Ha) as [Ha1 Ha2].
  pose proof (proj1 (qualifying_spec _ _ _) Hb) as [Hb1 Hb2].
  cbn [snd] in Ha2, Hb2.
  repeat (split; [assumption || reflexivity |]).
  split; apply elem_of_app; left.
  - apply list_elem_of_fmap. exists ka. split; [reflexivity |].
    apply list_elem_of_fmap. exists (a, ka). split; [reflexivity | exact Ha].
  - apply list_elem_of_fmap. exists kb. split; [reflexivity |].
    apply list_elem_of_fmap. exists (b, kb). split; [reflexivity | exact Hb].
Qed.

(** C10 on the example pose: the line between nose and left eye. *)
Lemma C10_line_endpoints_witness :
  let o' := snd (draw_pose (640, 480) (0, 0, 320, 240)%Q default_color
                           default_threshold example_objects) in
  Svg.line (200, 400) (220, 380) "yellow" 2
    ∈ new_elements example_objects o'
  /\ exists (a b : string) (ka kb : Keypoint),
       (a, b) ∈ EDGES
       /\ (a, ka) ∈ example_pose /\ (default_threshold <= score ka)%Q
       /\ (b, kb) ∈ example_pose /\ (default_threshold <= score kb)%Q
       /\ (200, 400) = position (640, 480) (0, 0, 320, 240)%Q ka
       /\ (220, 380) = position (640, 480) (0, 0, 320, 240)%Q kb
       /\ Svg.circle (200, 400) 5 "cyan" (score ka) default_color
            ∈ new_elements example_objects o'
       /\ Svg.circle (220, 380) 5 "cyan" (score kb) default_color
            ∈ new_elements example_objects o'.
Proof.
  assert (Hline : Svg.line (200, 400) (220, 380) "yellow" 2
                    ∈ new_elements example_objects
                        (snd (draw_pose (640, 480) (0, 0, 320, 240)%Q
                                default_color default_threshold
                                example_objects))).
  { apply list_elem_of_In. vm_compute. right. right. left. reflexivity. }
  split; [exact Hline |].
  exact (C10_line_endpoints (640, 480) (0, 0, 320, 240)%Q default_color
           default_threshold example_objects (200, 400) (220, 380)
           "yellow" 2 Hline).
Defined.




Lemma draw_pose_cases (src_size : Z * Z) (box : Q * Q * Q * Q)
    (color : string) (threshold : Q) (o : objects) :
  nonzero box
  \/ draw_pose src_size box color threshold o
     = (Raise ZeroDivisionError,
        {| elements := elements o;
           keypoints := keypoints o;
           stdout := stdout o ++ [box] |}).
Proof.
  destruct box as [[[offset_x offset_y] box_w] box_h].
  destruct (Qeq_bool box_w 0) eqn:Ew.
  { right. apply draw_pose_raises. left. apply Qeq_bool_iff, Ew. }
  destruct (Qeq_bool box_h 0) eqn:Eh.
  { right. apply draw_pose_raises. right. apply Qeq_bool_iff, Eh. }
  left. split; apply Qeq_bool_neq; assumption.
Qed.





End render_statements.

(** ** The capture loop *)

Section stream.

Import Stream.

Lemma perform_cases (w : world) (c : call) (tr : log) :
  (exists v, perform w c tr = (Ok v, tr ++ [(c, Returns v)]))
  \/ (exists e, perform w c tr = (Raise e, tr ++ [(c, Raises e)])).
Proof.
  unfold perform. destruct (w (length tr)) as [v | e]; eauto.
Qed.

Lemma quiet_returns (c : call) (v : bool) (tr : log) :
  c <> release -> Forall quiet tr -> Forall quiet (tr ++ [(c, Returns v)]).
Proof.
  intros Hc Htr. apply Forall_app. split; [exact Htr |].
  constructor; [| constructor]. split; [exact Hc | eauto].
Qed.

Lemma quiet_outside (c : call) (o : outcome) (tr : log) :
  c <> release -> ~ in_body c -> Forall quiet tr ->
  Forall quiet (tr ++ [(c, o)]).
Proof.
  intros Hc Hout Htr. apply Forall_app. split; [exact Htr |].
  constructor; [| constructor]. split; [exact Hc | contradiction].
Qed.

Ltac body_call :=
  unfold in_body; intuition congruence.

(** One pass through the body: it completes, or one of its calls raises. *)
Lemma body_cases (w : world) (tr : log) :
  Forall quiet tr ->
  (exists tr', body w tr = (Ok tt, tr') /\ Forall quiet tr')
  \/ (exists e c tr', body w tr = (Raise e, tr' ++ [(c, Raises e)])
                      /\ in_body c /\ Forall quiet tr').
Proof.
  intros H0. unfold body, Eff.bind.
  destruct (perform_cases w read tr) as [[g ->] | [e ->]];
    [| right; exists e, read, tr; repeat split; [body_call | exact H0]].
  pose proof (quiet_returns read g tr ltac:(discriminate) H0) as H1.
  set (tr1 := tr ++ [(read, Returns g)]) in *.
  assert (Hresize :
    (exists v, cv2_resize w g tr1 = (Ok v, tr1 ++ [(resize, Returns v)]))
    \/ (exists e, cv2_resize w g tr1 = (Raise e, tr1 ++ [(resize, Raises e)]))).
  { unfold cv2_resize. destruct g; [apply perform_cases | right; eauto]. }
  destruct Hresize as [[v2 ->] | [e ->]];
    [| right; exists e, resize, tr1; repeat split; [body_call | exact H1]].
  pose proof (quiet_returns resize v2 tr1 ltac:(discriminate) H1) as H2.
  set (tr2 := tr1 ++ [(resize, Returns v2)]) in *.
  destruct (perform_cases w imencode tr2) as [[v3 ->] | [e ->]];
    [| right; exists e, imencode, tr2; repeat split; [body_call | exact H2]].
  pose proof (quiet_returns imencode v3 tr2 ltac:(discriminate) H2) as H3.
  set (tr3 := tr2 ++ [(imencode, Returns v3)]) in *.
  destruct (perform_cases w b64encode tr3) as [[v4 ->] | [e ->]];
    [| right; exists e, b64encode, tr3; repeat split; [body_call | exact H3]].
  pose proof (quiet_returns b64encode v4 tr3 ltac:(discriminate) H3) as H4.
  set (tr4 := tr3 ++ [(b64encode, Returns v4)]) in *.
  destruct (perform_cases w send tr4) as [[v5 ->] | [e ->]];
    [| right; exists e, send, tr4; repeat split; [body_call | exact H4]].
  left. eexists. split; [reflexivity |].
  apply quiet_returns; [discriminate | exact H4].
Qed.

(** The handler calls [release], then [destroyAllWindows], then breaks. *)
Lemma handler_cases (w : world) (tr : log) :
  exists (r : result flow) (tail : log),
    handler w tr = (r, tr ++ tail)
    /\ cleanup (match r with Ok _ => Ok Exited | Raise e => Raise e end) tail
    /\ (forall f, r = Ok f -> f = Break).
Proof.
  unfold handler, Eff.bind.
  destruct (perform_cases w release tr) as [[v ->] | [e ->]].
  - destruct (perform_cases w destroyAllWindows (tr ++ [(release, Returns v)]))
      as [[v' ->] | [e ->]].
    + exists (Ok Break), [(release, Returns v); (destroyAllWindows, Returns v')].
      rewrite <- app_assoc. split; [reflexivity |].
      split; [constructor | intros f [= <-]; reflexivity].
    + exists (Raise e), [(release, Returns v); (destroyAllWindows, Raises e)].
      rewrite <- app_assoc. split; [reflexivity |].
      split; [constructor | discriminate].
  - exists (Raise e), [(release, Raises e)].
    split; [reflexivity |]. split; [constructor | discriminate].
Qed.

Lemma capture_loop_shape (w : world) (fuel : nat) (tr tr' : log)
    (st : result status) :
  Forall quiet tr ->
  capture_loop w fuel tr = (st, tr') ->
  run_shape st tr'.
Proof.
  revert tr. induction fuel as [| fuel IH]; intros tr H0; cbn [capture_loop].
  - intros [= <- <-]. apply shape_quiet, H0.
  - unfold Eff.bind.
    destruct (perform_cases w isOpened tr) as [[opened ->] | [e ->]].
    2:{ intros [= <- <-]. apply shape_quiet, quiet_outside;
          [discriminate | body_call | exact H0]. }
    pose proof (quiet_returns isOpened opened tr ltac:(discriminate) H0) as H1.
    set (tr1 := tr ++ [(isOpened, Returns opened)]) in *.
    destruct opened; [| intros [= <- <-]; apply shape_quiet, H1].
    unfold try_except_KeyboardInterrupt.
    destruct (body_cases w tr1 H1)
      as [(tr2 & -> & H2) | (e & c & tr2 & -> & Hc & H2)].
    + apply IH, H2.
    + destruct (decide (e = KeyboardInterrupt)) as [-> | Hne].
      * destruct (handler_cases w (tr2 ++ [(c, Raises KeyboardInterrupt)]))
          as (r & tail & -> & Hclean & Hbreak).
        rewrite <- app_assoc. cbn [app].
        destruct r as [f | e].
        -- rewrite (Hbreak f eq_refl). intros [= <- <-].
           apply shape_interrupted; assumption.
        -- intros [= <- <-]. apply shape_interrupted; assumption.
      * destruct e; try contradiction; intros [= <- <-];
          apply shape_failed; assumption.
Qed.

Lemma script_shape (w : world) (fuel : nat) :
  run_shape (fst (script w fuel)) (snd (script w fuel)).
Proof.
  unfold script, Eff.bind.
  destruct (perform_cases w VideoCapture []) as [[v ->] | [e ->]].
  - destruct (capture_loop w fuel _) as [st tr'] eqn:Erun.
    apply (capture_loop_shape _ _ _ _ _ (quiet_returns VideoCapture v []
             ltac:(discriminate) (Forall_nil_2 _)) Erun).
  - apply shape_quiet.
    apply (quiet_outside VideoCapture (Raises e) []);
      [discriminate | body_call | constructor].
Qed.

Lemma released_app (t1 t2 : log) :
  released (t1 ++ t2) = (released t1 + released t2)%nat.
Proof.
  unfold released, calls. rewrite fmap_app, filter_app, length_app.
  reflexivity.
Qed.

Lemma released_cons (c : call) (o : outcome) (tr : log) :
  released ((c, o) :: tr)
  = ((if decide (c = release) then 1 else 0) + released tr)%nat.
Proof.
  unfold released, calls. rewrite fmap_cons, filter_cons. cbn [fst].
  destruct (decide (c = release)); reflexivity.
Qed.

Lemma released_other (c : call) (o : outcome) (tr : log) :
  c <> release -> released ((c, o) :: tr) = released tr.
Proof.
  intros Hc. rewrite released_cons.
  destruct (decide (c = release)); [contradiction | reflexivity].
Qed.

Lemma in_body_not_release (c : call) : in_body c -> c <> release.
Proof. body_call. Qed.

Lemma released_quiet (tr : log) : Forall quiet tr -> released tr = 0%nat.
Proof.
  induction 1 as [| [c o] tr [Hc _] _ IH]; [reflexivity |].
  rewrite released_other by exact Hc. exact IH.
Qed.

Lemma quiet_no_raise (tr : log) (c : call) (e : exn) :
  Forall quiet tr -> in_body c -> (c, Raises e) ∉ tr.
Proof.
  intros Hq Hc Hin. rewrite Forall_forall in Hq.
  destruct (Hq _ Hin) as [_ Hret]. destruct (Hret Hc) as [v Hv].
  discriminate.
Qed.

Lemma cleanup_facts (st : result status) (tail : log) :
  cleanup st tail ->
  released tail = 1%nat
  /\ st <> Ok Running
  /\ (exists o after, tail = (release, o) :: after /\ released after = 0%nat)
  /\ (forall c o, (c, o) ∈ tail -> ~ in_body c).
Proof.
  intros H. destruct H; (split; [reflexivity |]); (split; [discriminate |]);
    (split; [eexists; eexists; split; reflexivity |]);
    intros c o Hin Hc;
    repeat (apply elem_of_cons in Hin as [[= -> _] | Hin];
            [revert Hc; body_call |]);
    inversion Hin.
Qed.

(** C8, as the code has it.  [release] is called at most once in a run.
    It is called exactly when one of the five calls of the loop body raised
    [KeyboardInterrupt]: the handler then calls it right away, once, and
    the loop does not go on.  When a body call raises anything else, as
    [cv2.resize] does on the empty frame of a failed read, the exception
    ends the script and [release] has not been called. *)
Theorem C8_release_on_interrupt_only (w : world) (fuel : nat) :
  let st := fst (script w fuel) in
  let tr := snd (script w fuel) in
  (released tr <= 1)%nat /\
  (released tr = 1%nat
   <-> exists c, in_body c /\ (c, Raises KeyboardInterrupt) ∈ tr) /\
  (forall c : call,
      in_body c -> (c, Raises KeyboardInterrupt) ∈ tr ->
      st <> Ok Running
      /\ exists (before after : log) (o : outcome),
           tr = before ++ (c, Raises KeyboardInterrupt)
                         :: (release, o) :: after
           /\ released before = 0%nat /\ released after = 0%nat) /\
  (forall (c : call) (e : exn),
      in_body c -> e <> KeyboardInterrupt -> (c, Raises e) ∈ tr ->
      st = Raise e /\ released tr = 0%nat).
Proof.
  intros st tr. subst st tr.
  destruct (script_shape w fuel)
    as [st tr Hq | e c tr He Hc Hq | st c tr tail Hc Hq Hclean].
  - pose proof (released_quiet tr Hq) as Hrel. rewrite Hrel.
    split; [lia |]. split; [| split].
    + split; [discriminate |].
      intros (c & Hc & Hin). exfalso. exact (quiet_no_raise _ _ _ Hq Hc Hin).
    + intros c Hc Hin. exfalso. exact (quiet_no_raise _ _ _ Hq Hc Hin).
    + intros c e Hc _ Hin. exfalso. exact (quiet_no_raise _ _ _ Hq Hc Hin).
  - assert (Hrel : released (tr ++ [(c, Raises e)]) = 0%nat).
    { rewrite released_app, (released_quiet tr Hq).
      rewrite released_other by exact (in_body_not_release c Hc).
      reflexivity. }
    assert (Hin : forall c' e', in_body c' ->
              (c', Raises e') ∈ tr ++ [(c, Raises e)] -> e' = e).
    { intros c' e' Hc' [Hin | Hin]%elem_of_app.
      - exfalso. exact (quiet_no_raise _ _ _ Hq Hc' Hin).
      - apply list_elem_of_singleton in Hin. congruence. }
    rewrite Hrel. split; [lia |]. split; [| split].
    + split; [discriminate |].
      intros (c' & Hc' & Hin'). apply Hin in Hin'; congruence.
    + intros c' Hc' Hin'. apply Hin in Hin'; congruence.
    + intros c' e' Hc' _ Hin'. apply Hin in Hin'; [| exact Hc'].
      subst e'. split; reflexivity.
  - destruct (cleanup_facts st tail Hclean)
      as (Htail & Hst & (o & after & -> & Hafter) & Hout).
    assert (Hrel : released
                     (tr ++ (c, Raises KeyboardInterrupt)
                         :: (release, o) :: after) = 1%nat).
    { rewrite released_app, (released_quiet tr Hq).
      rewrite released_other by exact (in_body_not_release c Hc).
      exact Htail. }
    assert (Hin : forall c' e', in_body c' ->
              (c', Raises e') ∈ tr ++ (c, Raises KeyboardInterrupt)
                                   :: (release, o) :: after ->
              c' = c /\ e' = KeyboardInterrupt).
    { intros c' e' Hc' [Hin | Hin]%elem_of_app.
      - exfalso. exact (quiet_no_raise _ _ _ Hq Hc' Hin).
      - apply elem_of_cons in Hin as [[= -> ->] | Hin];
          [split; reflexivity |].
        exfalso. exact (Hout _ _ Hin Hc'). }
    rewrite Hrel. split; [lia |]. split; [| split].
    + split; [| reflexivity]. intros _. exists c. split; [exact Hc |].
      apply elem_of_app. right. left.
    + intros c' Hc' Hin'. destruct (Hin _ _ Hc' Hin') as [-> _].
      split; [exact Hst |].
      exists tr, after, o. split; [reflexivity |].
      split; [apply released_quiet, Hq | exact Hafter].
    + intros c' e' Hc' He' Hin'. destruct (Hin _ _ Hc' Hin') as [_ ->].
      contradiction.
Qed.

(** C8 fails as stated: a [read] that raises ends the script with the
    capture never released, and so does a [read] that grabs nothing. *)
Lemma C8_counterexample :
  script read_raises 1
  = (Raise cv2_error,
     [(VideoCapture, Returns true); (isOpened, Returns true);
      (read, Raises cv2_error)])
  /\ released (snd (script read_raises 1)) = 0%nat
  /\ script read_grabs_nothing 1
     = (Raise cv2_error,
        [(VideoCapture, Returns true); (isOpened, Returns true);
         (read, Returns false); (resize, Raises cv2_error)])
  /\ released (snd (script read_grabs_nothing 1)) = 0%nat
  /\ ~ released_on_every_exit.
Proof.
  repeat (split; [reflexivity |]).
  intros H. specialize (H read_raises 1%nat).
  assert (Hst : fst (script read_raises 1) <> Ok Running) by discriminate.
  specialize (H Hst). discriminate.
Qed.

(** C8 on Ctrl-C during the second [send]: the handler runs, the capture
    is released once and the script ends. *)
Lemma C8_release_on_interrupt_only_witness :
  in_body send
  /\ (send, Raises KeyboardInterrupt) ∈ snd (script interrupted_send 5)
  /\ fst (script interrupted_send 5) <> Ok Running
  /\ released (snd (script interrupted_send 5)) = 1%nat.
Proof.
  assert (Hc : in_body send) by (unfold in_body; tauto).
  assert (Hin : (send, Raises KeyboardInterrupt)
                  ∈ snd (script interrupted_send 5)).
  { apply list_elem_of_In. vm_compute. tauto. }
  split; [exact Hc |]. split; [exact Hin |].
  pose proof (C8_release_on_interrupt_only interrupted_send 5)
    as (_ & Honce & Hbreak & _).
  split; [exact (proj1 (Hbreak send Hc Hin)) |].
  apply Honce. exists send. split; [exact Hc | exact Hin].
Defined.

End stream.

(** ** More on the frame-rate estimator *)

Section fps_more.

Import Fps.

Lemma advances_finished (clock : list Q) :
  advances Finished clock
  = (map (fun _ => Raise StopIteration) clock, Finished).
Proof.
  induction clock as [| t clock IH]; cbn; [reflexivity |].
  rewrite IH. reflexivity.
Qed.

Lemma advances_cons (g : generator) (t : Q) (clock : list Q) :
  advances g (t :: clock)
  = (fst (next g t) :: fst (advances (snd (next g t)) clock),
     snd (advances (snd (next g t)) clock)).
Proof.
  cbn [advances]. destruct (next g t) as [r g']. cbn [fst snd].
  destruct (advances g' clock). reflexivity.
Qed.

Lemma next_raise_finished (g g' : generator) (now : Q) (e : exn) :
  next g now = (Raise e, g') -> g' = Finished.
Proof.
  destruct g as [n | d prev |]; cbn.
  - discriminate.
  - destruct (truediv _ _); [discriminate | intros [= _ <-]; reflexivity].
  - intros [= _ <-]. reflexivity.
Qed.

(** X1.  An estimator that has raised is exhausted: the advance that
    raised leaves it finished, and every later advance raises
    [StopIteration], whatever the clock reads. *)
Theorem fps_exhausted_after_raise (g g' : generator) (now : Q) (e : exn)
    (clock : list Q) :
  next g now = (Raise e, g') ->
  advances g' clock = (map (fun _ => Raise StopIteration) clock, Finished).
Proof.
  intros Hraise. rewrite (next_raise_finished _ _ _ _ Hraise).
  apply advances_finished.
Qed.

Lemma fps_exhausted_after_raise_witness :
  next (Suspended (Deque.mk [] 1) 5%Q) 5%Q = (Raise ZeroDivisionError, Finished)
  /\ advances Finished [6; 7]%Q
     = ([Raise StopIteration; Raise StopIteration], Finished).
Proof.
  split; [reflexivity |].
  exact (fps_exhausted_after_raise (Suspended (Deque.mk [] 1) 5%Q) Finished
           5%Q ZeroDivisionError [6; 7]%Q eq_refl).
Defined.

(** X2.  With capacity 0 the window stays empty: the first advance yields
    [0.0], the second raises [ZeroDivisionError] on [0 / 0] whatever the
    clock reads, and the estimator is exhausted from then on. *)
Theorem fps_zero_capacity (t1 t2 : Q) (clock : list Q) :
  advances (avg_fps_counter 0) (t1 :: t2 :: clock)
  = (Ok 0%Q :: Raise ZeroDivisionError
       :: map (fun _ => Raise StopIteration) clock,
     Finished).
Proof.
  unfold avg_fps_counter.
  rewrite (advances_cons (Created 0) t1).
  change (next (Created 0) t1) with (Ok 0%Q, Suspended (Deque.new 0) t1).
  cbn [fst snd]. rewrite (advances_cons _ t2).
  change (next (Suspended (Deque.new 0) t1) t2)
    with (@Raise Q ZeroDivisionError, Finished).
  cbn [fst snd]. rewrite advances_finished. reflexivity.
Qed.






(** The [i]-th advance over strictly increasing readings, by the window
    it computes from. *)
Lemma yield_of_increasing (N : nat) (ts : list Q) (i : nat) :
  (0 < N)%nat -> strictly_increasing ts -> (1 < i <= length ts)%nat ->
  let w := last_n N (deltas (take i ts)) in
  fst (advances (avg_fps_counter N) ts) !! (i - 1)%nat
  = Some (truediv (len w) (sum w))
  /\ w <> [] /\ Forall (fun d => (0 < d)%Q) w.
Proof.
  intros HN Hinc [Hi Hlen] w. unfold avg_fps_counter.
  destruct (lookup_lt_is_Some_2 ts (i - 1)) as [t Ht]; [lia |].
  assert (Htake : take i ts = take (i - 1) ts ++ [t]).
  { replace i with (S (i - 1)) at 1 by lia. apply take_S_r, Ht. }
  destruct (advances_increasing N (take (i - 1) ts) HN
              (strictly_increasing_take _ _ Hinc)) as (prev & Eg & Hlast).
  { intros Hnil. apply (f_equal length) in Hnil.
    rewrite length_take in Hnil. cbn in Hnil. lia. }
  split; [| split].
  - rewrite (advances_lookup _ ts (i - 1) t Ht), Eg, next_suspended.
    cbn zeta. rewrite <- (deltas_snoc _ prev t Hlast), <- Htake.
    fold w. destruct (truediv (len w) (sum w)); reflexivity.
  - intros Hnil. apply (f_equal length) in Hnil. unfold w in Hnil.
    rewrite last_n_length, deltas_length, length_take in Hnil.
    cbn in Hnil. lia.
  - apply Forall_drop, deltas_positive, strictly_increasing_take, Hinc.
Qed.


Lemma deltas_drop (k : nat) (ts : list Q) :
  deltas (drop k ts) = drop k (deltas ts).
Proof.
  revert k. induction ts as [| a ts IH]; intros k.
  - destruct k; reflexivity.
  - destruct k as [| k]; [reflexivity |].
    cbn [drop]. rewrite IH. destruct ts as [| b ts].
    + destruct k; reflexivity.
    + reflexivity.
Qed.

Lemma deltas_last_n (n : nat) (ts : list Q) :
  last_n n (deltas ts) = deltas (last_n (S n) ts).
Proof.
  unfold last_n. rewrite deltas_drop, deltas_length. f_equal. lia.
Qed.





(** X5.  The estimate forgets what lies before its window: over strictly
    increasing readings, two histories of at least two readings that end
    in the same [N + 1] readings give the same latest result. *)
Theorem fps_depends_on_last_readings (N : nat) (ts1 ts2 : list Q) :
  (0 < N)%nat ->
  strictly_increasing ts1 -> strictly_increasing ts2 ->
  (1 < length ts1)%nat -> (1 < length ts2)%nat ->
  last_n (S N) ts1 = last_n (S N) ts2 ->
  last (fst (advances (avg_fps_counter N) ts1))
  = last (fst (advances (avg_fps_counter N) ts2)).
Proof.
  intros HN Hinc1 Hinc2 Hlen1 Hlen2 Hsame.
  rewrite !last_lookup, !advances_length.
  destruct (yield_of_increasing N ts1 (length ts1) HN Hinc1) as (Hy1 & _);
    [lia |].
  destruct (yield_of_increasing N ts2 (length ts2) HN Hinc2) as (Hy2 & _);
    [lia |].
  rewrite firstn_all, deltas_last_n in Hy1, Hy2.
  replace (pred (length ts1)) with (length ts1 - 1)%nat by lia.
  replace (pred (length ts2)) with (length ts2 - 1)%nat by lia.
  rewrite Hy1, Hy2, Hsame. reflexivity.
Qed.

Lemma fps_depends_on_last_readings_witness :
  last (fst (advances (avg_fps_counter 1) [0; 1; 3; 7]%Q))
  = last (fst (advances (avg_fps_counter 1) [2; 3; 7]%Q)).
Proof.
  refine (fps_depends_on_last_readings 1 [0; 1; 3; 7]%Q [2; 3; 7]%Q
            _ _ _ _ _ _).
  - lia.
  - intros [| [| [| [| j]]]] a b Ha Hb; cbn in Ha, Hb; try discriminate;
      injection Ha as <-; injection Hb as <-; reflexivity.
  - intros [| [| [| j]]] a b Ha Hb; cbn in Ha, Hb; try discriminate;
      injection Ha as <-; injection Hb as <-; reflexivity.
  - cbn. lia.
  - cbn. lia.
  - reflexivity.
Defined.

End fps_more.

(** ** More on the skeleton renderer *)

Section render_more.

Import Render.

Lemma new_elements_returns (src_size : Z * Z) (box : Q * Q * Q * Q)
    (color : string) (threshold : Q) (o : objects) :
  nonzero box ->
  new_elements o (snd (draw_pose src_size box color threshold o))
  = map (circle_of src_size box color)
        (qualifying threshold (keypoints o)).*2
    ++ omap (edge_line
               (record_all src_size box
                  (qualifying threshold (keypoints o)) ∅) color)
            EDGES.
Proof.
  intros Hbox. rewrite (draw_pose_returns _ _ _ _ _ Hbox).
  unfold new_elements. cbn [snd elements]. apply drop_app_length.
Qed.

Lemma new_elements_raises (src_size : Z * Z) (box : Q * Q * Q * Q)
    (color : string) (threshold : Q) (o : objects) :
  ~ nonzero box ->
  new_elements o (snd (draw_pose src_size box color threshold o)) = [].
Proof.
  intros Hbox.
  destruct (draw_pose_cases src_size box color threshold o)
    as [Hnz | ->]; [contradiction |].
  unfold new_elements. cbn [snd elements]. apply drop_all.
Qed.

Lemma nonzero_dec (box : Q * Q * Q * Q) : nonzero box \/ ~ nonzero box.
Proof.
  destruct box as [[[offset_x offset_y] box_w] box_h]. cbn.
  destruct (Qeq_bool box_w 0) eqn:Ew.
  { right. intros [Hw _]. apply Qeq_bool_iff in Ew. contradiction. }
  destruct (Qeq_bool box_h 0) eqn:Eh.
  { right. intros [_ Hh]. apply Qeq_bool_iff in Eh. contradiction. }
  left. split; apply Qeq_bool_neq; assumption.
Qed.



Lemma qualifying_none (threshold : Q) (kps : list (string * Keypoint)) :
  (forall label kp, (label, kp) ∈ kps -> (score kp < threshold)%Q) ->
  qualifying threshold kps = [].
Proof.
  induction kps as [| [label kp] kps IH]; intros Hlow; [reflexivity |].
  cbn. rewrite (below_threshold threshold kp) by (apply (Hlow label); left).
  apply IH. intros l k Hin. apply (Hlow l). right. exact Hin.
Qed.

(** X7.  A pose with no keypoint at or above the threshold, the empty pose
    among them, leaves the canvas as it was: with a box of non-zero width
    and height the call returns and adds nothing. *)
Theorem draw_pose_nothing_qualifies (src_size : Z * Z)
    (box : Q * Q * Q * Q) (color : string) (threshold : Q) (o : objects) :
  nonzero box ->
  (forall label kp, (label, kp) ∈ keypoints o -> (score kp < threshold)%Q) ->
  draw_pose src_size box color threshold o
  = (Ok tt,
     {| elements := elements o;
        keypoints := keypoints o;
        stdout := stdout o ++ [box] |}).
Proof.
  intros Hbox Hlow. rewrite (draw_pose_returns _ _ _ _ _ Hbox).
  rewrite (qualifying_none _ _ Hlow). cbn [fmap list_fmap map record_all fold_left].
  replace (omap (edge_line ∅ color) EDGES) with (@nil Svg.element)
    by (vm_compute; reflexivity).
  rewrite app_nil_r. reflexivity.
Qed.

Lemma draw_pose_nothing_qualifies_witness :
  draw_pose (640, 480) (0, 0, 320, 240)%Q default_color 0.95%Q
            example_objects
  = (Ok tt,
     {| elements := [];
        keypoints := example_pose;
        stdout := [(0, 0, 320, 240)%Q] |}).
Proof.
  refine (draw_pose_nothing_qualifies (640, 480) (0, 0, 320, 240)%Q
            default_color 0.95%Q example_objects example_box_nonzero _).
  intros label kp Hin.
  repeat (apply elem_of_cons in Hin as [[= -> ->] | Hin]; [reflexivity |]).
  inversion Hin.
Defined.

Lemma filter_sublist {A} (f g : A -> bool) (l : list A) :
  (forall x, f x = true -> g x = true) ->
  sublist (List.filter f l) (List.filter g l).
Proof.
  intros Hfg. induction l as [| x l IH]; cbn; [constructor |].
  destruct (f x) eqn:Ef.
  - rewrite (Hfg x Ef). constructor. exact IH.
  - destruct (g x); [constructor |]; exact IH.
Qed.

Lemma omap_sublist {A B} (f g : A -> option B) (l : list A) :
  (forall x y, f x = Some y -> g x = Some y) ->
  sublist (omap f l) (omap g l).
Proof.
  intros Hfg. induction l as [| x l IH]; cbn; [constructor |].
  destruct (f x) as [y |] eqn:Ef.
  - rewrite (Hfg x y Ef). constructor. exact IH.
  - destruct (g x); [constructor |]; exact IH.
Qed.

Lemma record_all_other (src_size : Z * Z) (box : Q * Q * Q * Q)
    (l : list (string * Keypoint)) (xys : gmap string (Z * Z))
    (k : string) :
  k ∉ l.*1 -> record_all src_size box l xys !! k = xys !! k.
Proof.
  unfold record_all.
  revert xys. induction l as [| [k' kp'] l IH]; intros xys Hk; cbn;
    [reflexivity |].
  cbn in Hk. apply not_elem_of_cons in Hk as [Hne Hk].
  rewrite (IH _ Hk). apply lookup_insert_ne. congruence.
Qed.

(** In a dict, the position recorded under a label is that of the
    keypoint with this label. *)
Lemma record_all_Some (src_size : Z * Z) (box : Q * Q * Q * Q)
    (l : list (string * Keypoint)) (xys : gmap string (Z * Z))
    (k : string) (kp : Keypoint) :
  dict_ok l -> (k, kp) ∈ l ->
  record_all src_size box l xys !! k = Some (position src_size box kp).
Proof.
  unfold dict_ok.
  revert xys. induction l as [| [k' kp'] l IH]; intros xys Hnd Hin;
    [inversion Hin |].
  cbn in Hnd. apply NoDup_cons in Hnd as [Hk' Hnd].
  apply elem_of_cons in Hin as [[= -> ->] | Hin].
  - change (record_all src_size box ((k', kp') :: l) xys)
      with (record_all src_size box l
              (<[k' := position src_size box kp']> xys)).
    rewrite (record_all_other _ _ _ _ _ Hk'). apply lookup_insert_eq.
  - exact (IH _ Hnd Hin).
Qed.

Lemma qualifying_mono (t1 t2 : Q) (kps : list (string * Keypoint)) :
  (t1 <= t2)%Q ->
  sublist (qualifying t2 kps) (qualifying t1 kps).
Proof.
  intros Ht. apply filter_sublist. intros x Hx. unfold qualifies in *.
  apply Qle_bool_iff. apply Qle_bool_iff in Hx.
  exact (Qle_trans _ _ _ Ht Hx).
Qed.

(** X8.  Raising the threshold only takes elements away: for a pose whose
    keypoints form a dict and thresholds [t1 <= t2], what a call adds at
    [t2] is a sublist of what it adds at [t1], the other arguments being
    the same. *)
Theorem draw_pose_threshold_monotone (src_size : Z * Z)
    (box : Q * Q * Q * Q) (color : string) (t1 t2 : Q) (o : objects) :
  dict_ok (keypoints o) ->
  (t1 <= t2)%Q ->
  sublist (new_elements o (snd (draw_pose src_size box color t2 o)))
          (new_elements o (snd (draw_pose src_size box color t1 o))).
Proof.
  intros Hdict Ht.
  destruct (nonzero_dec box) as [Hbox | Hbox].
  2:{ rewrite !new_elements_raises by exact Hbox. constructor. }
  rewrite !new_elements_returns by exact Hbox.
  apply sublist_app.
  - apply (fmap_sublist (circle_of src_size box color)).
    apply (fmap_sublist snd), qualifying_mono, Ht.
  - apply omap_sublist. intros e ln. unfold edge_line.
    assert (Hxys : forall k p,
      record_all src_size box (qualifying t2 (keypoints o)) ∅ !! k = Some p ->
      record_all src_size box (qualifying t1 (keypoints o)) ∅ !! k = Some p).
    { intros k p Hk. apply record_all_lookup in Hk as [Hk | (kp & Hin & ->)].
      - rewrite lookup_empty in Hk. discriminate.
      - apply record_all_Some.
        + apply qualifying_labels_NoDup, Hdict.
        + exact (elem_of_sublist _ _ _ Hin (qualifying_mono _ _ _ Ht)). }
    destruct (record_all src_size box (qualifying t2 (keypoints o)) ∅ !! e.1)
      as [p |] eqn:Ep; [| discriminate].
    destruct (record_all src_size box (qualifying t2 (keypoints o)) ∅ !! e.2)
      as [q |] eqn:Eq; [| discriminate].
    rewrite (Hxys _ _ Ep), (Hxys _ _ Eq). intros H. exact H.
Qed.

Lemma draw_pose_threshold_monotone_witness :
  dict_ok (keypoints example_objects) /\ (0.2 <= 0.85)%Q /\
  sublist
    (new_elements example_objects
       (snd (draw_pose (640, 480) (0, 0, 320, 240)%Q default_color 0.85%Q
                       example_objects)))
    (new_elements example_objects
       (snd (draw_pose (640, 480) (0, 0, 320, 240)%Q default_color 0.2%Q
                       example_objects))).
Proof.
  assert (Ht : (0.2 <= 0.85)%Q) by discriminate.
  split; [exact example_pose_dict_ok |]. split; [exact Ht |].
  exact (draw_pose_threshold_monotone (640, 480) (0, 0, 320, 240)%Q
           default_color 0.2%Q 0.85%Q example_objects
           example_pose_dict_ok Ht).
Defined.

Lemma length_omap_le {A B} (f : A -> option B) (l : list A) :
  (length (omap f l) <= length l)%nat.
Proof.
  induction l as [| x l IH]; cbn; [lia |].
  destruct (f x); cbn; lia.
Qed.

(** X9.  A call adds at most one circle per keypoint of the pose and at
    most 19 lines, whatever its arguments. *)
Theorem draw_pose_output_bounded (src_size : Z * Z) (box : Q * Q * Q * Q)
    (color : string) (threshold : Q) (o : objects) :
  let new := new_elements o
               (snd (draw_pose src_size box color threshold o)) in
  (length (List.filter Svg.is_circle new) <= length (keypoints o))%nat
  /\ (length (List.filter Svg.is_line new) <= 19)%nat
  /\ (length new <= length (keypoints o) + 19)%nat.
Proof.
  intros new. subst new.
  destruct (nonzero_dec box) as [Hbox | Hbox].
  2:{ rewrite new_elements_raises by exact Hbox. cbn. lia. }
  rewrite new_elements_returns by exact Hbox.
  set (xys := record_all _ _ _ _).
  destruct (filter_circles_lines
              (map (circle_of src_size box color)
                   (qualifying threshold (keypoints o)).*2)
              (omap (edge_line xys color) EDGES)
              (circles_are_circles _ _ _ _) (lines_are_lines _ _ _))
    as [-> ->].
  assert (Hc : (length (map (circle_of src_size box color)
                          (qualifying threshold (keypoints o)).*2)
                <= length (keypoints o))%nat).
  { rewrite length_map, length_fmap. unfold qualifying.
    apply List.filter_length_le. }
  assert (Hl : (length (omap (edge_line xys color) EDGES) <= 19)%nat).
  { apply (length_omap_le (edge_line xys color) EDGES). }
  rewrite length_app. lia.
Qed.

(** [int] gives equal rationals the same integer. *)
Lemma int_Qeq (q1 q2 : Q) : (q1 == q2)%Q -> int q1 = int q2.
Proof.
  unfold Qeq, int. destruct q1 as [n1 d1], q2 as [n2 d2]. cbn. intros H.
  rewrite <- (Z.quot_mul_cancel_r n1 (Z.pos d1) (Z.pos d2)) by lia.
  rewrite <- (Z.quot_mul_cancel_r n2 (Z.pos d2) (Z.pos d1)) by lia.
  rewrite H. f_equal. lia.
Qed.

Lemma int_between (q : Q) (b : Z) :
  (0 <= q)%Q -> (q <= inject_Z b)%Q -> 0 <= int q <= b.
Proof.
  intros H0 Hb.
  assert (Hfloor : int q = Qfloor q).
  { unfold int, Qfloor. destruct q as [n d]. apply Z.quot_div_nonneg.
    - unfold Qle in H0. cbn in H0. lia.
    - lia. }
  rewrite Hfloor. split.
  - rewrite <- (Qfloor_Z 0). apply Qfloor_resp_le. exact H0.
  - rewrite <- (Qfloor_Z b). apply Qfloor_resp_le. exact Hb.
Qed.

(** A coordinate inside the box lands inside the source frame. *)
Lemma rescale_between (raw offset box_len : Q) (src_len : Z) :
  0 <= src_len -> (0 < box_len)%Q ->
  (offset <= raw <= offset + box_len)%Q ->
  0 <= int ((raw - offset) * (inject_Z src_len / box_len))%Q <= src_len.
Proof.
  intros Hsrc Hbox [Hlo Hhi].
  assert (Hs : (0 <= inject_Z src_len / box_len)%Q).
  { apply Qle_shift_div_l; [exact Hbox |]. rewrite Qmult_0_l.
    change 0%Q with (inject_Z 0). rewrite <- Zle_Qle. exact Hsrc. }
  apply int_between.
  - apply Qmult_le_0_compat; [lra | exact Hs].
  - assert (E : (box_len * (inject_Z src_len / box_len)
                 == inject_Z src_len)%Q).
    { field. intros H0. rewrite H0 in Hbox. exact (Qlt_irrefl 0 Hbox). }
    apply (Qle_trans _ (box_len * (inject_Z src_len / box_len))%Q).
    + apply Qmult_le_compat_r; [lra | exact Hs].
    + rewrite E. apply Qle_refl.
Qed.

Lemma circle_centres_new (src_size : Z * Z) (box : Q * Q * Q * Q)
    (color : string) (threshold : Q) (o : objects) :
  nonzero box ->
  circle_centres
    (new_elements o (snd (draw_pose src_size box color threshold o)))
  = map (position src_size box) (qualifying threshold (keypoints o)).*2.
Proof.
  intros Hbox. rewrite (new_elements_returns _ _ _ _ _ Hbox).
  apply circle_centres_circles, lines_are_lines.
Qed.

(** X10.  Keypoints inside the inference box are drawn inside the source
    frame: with a source of non-negative size and a box of positive width
    and height, if every keypoint that reaches the threshold lies between
    the box's corner and the opposite corner, every circle the call adds
    has its centre between (0, 0) and (source width, source height). *)
Theorem draw_pose_inside_frame (src_w src_h : Z)
    (offset_x offset_y box_w box_h : Q) (color : string) (threshold : Q)
    (o : objects) :
  0 <= src_w -> 0 <= src_h -> (0 < box_w)%Q -> (0 < box_h)%Q ->
  (forall label kp,
      (label, kp) ∈ keypoints o -> (threshold <= score kp)%Q ->
      (offset_x <= (yx kp).2 <= offset_x + box_w)%Q
      /\ (offset_y <= (yx kp).1 <= offset_y + box_h)%Q) ->
  Forall (fun c : Z * Z => 0 <= c.1 <= src_w /\ 0 <= c.2 <= src_h)
    (circle_centres
       (new_elements o
          (snd (draw_pose (src_w, src_h)
                  (offset_x, offset_y, box_w, box_h) color threshold o)))).
Proof.
  intros Hw Hh Hbw Hbh Hin.
  rewrite circle_centres_new.
  2:{ split; intros H0; [rewrite H0 in Hbw | rewrite H0 in Hbh];
        exact (Qlt_irrefl 0 ltac:(eassumption)). }
  apply Forall_fmap, Forall_fmap, Forall_forall. intros [label kp] Hkp.
  apply qualifying_spec in Hkp as [Hkp Hscore]. cbn [snd] in Hscore.
  destruct (Hin label kp Hkp Hscore) as [Hx Hy].
  unfold compose, position. cbn [fst snd].
  split; apply rescale_between; assumption.
Qed.

Lemma draw_pose_inside_frame_witness :
  Forall (fun c : Z * Z => 0 <= c.1 <= 640 /\ 0 <= c.2 <= 480)
    (circle_centres
       (new_elements example_objects
          (snd (draw_pose (640, 480) (0, 0, 320, 240)%Q default_color
                  default_threshold example_objects)))).
Proof.
  refine (draw_pose_inside_frame 640 480 0%Q 0%Q 320%Q 240%Q default_color
            default_threshold example_objects _ _ _ _ _);
    [lia | lia | reflexivity | reflexivity |].
  intros label kp Hin _.
  repeat (apply elem_of_cons in Hin as [[= -> ->] | Hin];
          [cbn; repeat split; discriminate |]).
  inversion Hin.
Defined.

(** X11.  Without rescaling the positions are the truncated raw
    coordinates: when the box is the whole source frame, of non-zero
    width and height, the centres of the circles are [(int(x), int(y))]
    for the keypoints that reach the threshold, in the order of the
    pose. *)
Theorem draw_pose_identity_box (src_w src_h : Z) (color : string)
    (threshold : Q) (o : objects) :
  src_w <> 0 -> src_h <> 0 ->
  circle_centres
    (new_elements o
       (snd (draw_pose (src_w, src_h)
               (0, 0, inject_Z src_w, inject_Z src_h)%Q color threshold o)))
  = map (fun kp => (int (yx kp).2, int (yx kp).1))
        (qualifying threshold (keypoints o)).*2.
Proof.
  intros Hw Hh.
  assert (Hqw : ~ (inject_Z src_w == 0)%Q).
  { change 0%Q with (inject_Z 0). rewrite inject_Z_injective. exact Hw. }
  assert (Hqh : ~ (inject_Z src_h == 0)%Q).
  { change 0%Q with (inject_Z 0). rewrite inject_Z_injective. exact Hh. }
  rewrite circle_centres_new by (split; assumption).
  apply map_ext. intros kp. unfold position. cbn [fst snd].
  f_equal; apply int_Qeq; field; assumption.
Qed.

Lemma draw_pose_identity_box_witness :
  circle_centres
    (new_elements example_objects
       (snd (draw_pose (640, 480) (0, 0, inject_Z 640, inject_Z 480)%Q
               default_color default_threshold example_objects)))
  = [(100, 200); (110, 190)].
Proof.
  refine (draw_pose_identity_box 640 480 default_color default_threshold
            example_objects _ _); lia.
Defined.

End render_more.

(** ** More on the capture loop *)

Section stream_more.

Import Stream.

Lemma perform_returns (w : world) (c : call) (tr : log) (v : bool) :
  w (length tr) = Returns v ->
  perform w c tr = (Ok v, tr ++ [(c, Returns v)]).
Proof. intros Hw. unfold perform. rewrite Hw. reflexivity. Qed.

(** X12.  A camera that is not open is never read and never released: if
    the first [isOpened()] answers [False], the script ends normally after
    its two calls. *)
Theorem script_camera_not_opened (w : world) (fuel : nat) (v : bool) :
  (0 < fuel)%nat ->
  w 0%nat = Returns v -> w 1%nat = Returns false ->
  script w fuel
  = (Ok Exited, [(VideoCapture, Returns v); (isOpened, Returns false)]).
Proof.
  intros Hfuel H0 H1. destruct fuel as [| fuel]; [lia |].
  unfold script, Eff.bind.
  rewrite (perform_returns w VideoCapture [] v H0).
  cbn [capture_loop app]. unfold Eff.bind.
  rewrite (perform_returns w isOpened [(VideoCapture, Returns v)] false H1).
  reflexivity.
Qed.

Lemma script_camera_not_opened_witness :
  script (fun n => match n with
                   | 1%nat => Returns false
                   | _ => Returns true
                   end) 3
  = (Ok Exited, [(VideoCapture, Returns true); (isOpened, Returns false)]).
Proof.
  refine (script_camera_not_opened _ 3 true _ _ _); [lia | |]; reflexivity.
Defined.

Lemma capture_loop_steady (w : world) (fuel : nat) (tr : log) :
  (forall n, (length tr <= n < length tr + 6 * fuel)%nat ->
             w n = Returns true) ->
  capture_loop w fuel tr
  = (Ok Running, tr ++ concat (replicate fuel frame_sent)).
Proof.
  revert tr. induction fuel as [| fuel IH]; intros tr Hw.
  - cbn. rewrite app_nil_r. reflexivity.
  - cbn [capture_loop replicate concat].
    unfold Eff.bind, try_except_KeyboardInterrupt, body, Eff.bind, cv2_resize.
    rewrite (perform_returns w isOpened tr true) by (apply Hw; lia).
    rewrite (perform_returns w read _ true)
      by (apply Hw; rewrite length_app; cbn; lia).
    rewrite (perform_returns w resize _ true)
      by (apply Hw; rewrite !length_app; cbn; lia).
    rewrite (perform_returns w imencode _ true)
      by (apply Hw; rewrite !length_app; cbn; lia).
    rewrite (perform_returns w b64encode _ true)
      by (apply Hw; rewrite !length_app; cbn; lia).
    rewrite (perform_returns w send _ true)
      by (apply Hw; rewrite !length_app; cbn; lia).
    unfold Eff.ret. rewrite IH.
    + unfold frame_sent. rewrite <- !app_assoc. reflexivity.
    + intros n Hn. apply Hw. rewrite !length_app in Hn. cbn in Hn. lia.
Qed.

(** X13.  The loop has no exit of its own: as long as every call returns
    [True], the script keeps turning, and after [k] turns it has sent [k]
    frames, each after [isOpened], [read], [resize], [imencode] and
    [b64encode], and made no other call. *)
Theorem script_steady (w : world) (k : nat) :
  (forall n, (n < 1 + 6 * k)%nat -> w n = Returns true) ->
  script w k
  = (Ok Running,
     (VideoCapture, Returns true) :: concat (replicate k frame_sent)).
Proof.
  intros Hw. unfold script, Eff.bind.
  rewrite (perform_returns w VideoCapture [] true) by (apply Hw; cbn; lia).
  rewrite capture_loop_steady; [reflexivity |].
  intros n Hn. apply Hw. cbn in Hn. lia.
Qed.

Lemma script_steady_witness :
  script (fun _ => Returns true) 2
  = (Ok Running,
     (VideoCapture, Returns true) :: concat (replicate 2 frame_sent)).
Proof.
  refine (script_steady (fun _ => Returns true) 2 _). reflexivity.
Defined.

Ltac not_in_log :=
  let Hin := fresh "Hin" in
  intros Hin;
  repeat (apply elem_of_cons in Hin as [Hin | Hin]; [discriminate Hin |]);
  inversion Hin.

(** One pass through the body, by the calls it logs. *)
Lemma body_log (w : world) (tr : log) :
  (exists v2 v3 v4 v5 : bool,
      body w tr
      = (Ok tt,
         tr ++ [(read, Returns true); (resize, Returns v2);
                (imencode, Returns v3); (b64encode, Returns v4);
                (send, Returns v5)]))
  \/ (exists (e : exn) (part : log),
         body w tr = (Raise e, tr ++ part)
         /\ (forall v, (send, Returns v) ∉ part)
         /\ ((read, Returns false) ∈ part ->
             e = cv2_error
             /\ part = [(read, Returns false); (resize, Raises cv2_error)])).
Proof.
  unfold body, Eff.bind.
  destruct (perform_cases w read tr) as [[g ->] | [e ->]].
  2:{ right. exists e, [(read, Raises e)].
      split; [reflexivity |]. split; [intros v |]; not_in_log. }
  destruct g.
  2:{ right. exists cv2_error, [(read, Returns false); (resize, Raises cv2_error)].
      cbn [cv2_resize]. rewrite <- app_assoc.
      split; [reflexivity |]. split; [intros v; not_in_log |].
      intros _. split; reflexivity. }
  cbn [cv2_resize].
  destruct (perform_cases w resize (tr ++ [(read, Returns true)]))
    as [[v2 ->] | [e ->]].
  2:{ right. exists e, [(read, Returns true); (resize, Raises e)].
      rewrite <- app_assoc.
      split; [reflexivity |]. split; [intros v |]; not_in_log. }
  destruct (perform_cases w imencode
              ((tr ++ [(read, Returns true)]) ++ [(resize, Returns v2)]))
    as [[v3 ->] | [e ->]].
  2:{ right. exists e, [(read, Returns true); (resize, Returns v2);
                        (imencode, Raises e)].
      rewrite <- !app_assoc.
      split; [reflexivity |]. split; [intros v |]; not_in_log. }
  destruct (perform_cases w b64encode
              (((tr ++ [(read, Returns true)]) ++ [(resize, Returns v2)])
               ++ [(imencode, Returns v3)]))
    as [[v4 ->] | [e ->]].
  2:{ right. exists e, [(read, Returns true); (resize, Returns v2);
                        (imencode, Returns v3); (b64encode, Raises e)].
      rewrite <- !app_assoc.
      split; [reflexivity |]. split; [intros v |]; not_in_log. }
  destruct (perform_cases w send
              ((((tr ++ [(read, Returns true)]) ++ [(resize, Returns v2)])
                ++ [(imencode, Returns v3)]) ++ [(b64encode, Returns v4)]))
    as [[v5 ->] | [e ->]].
  2:{ right. exists e, [(read, Returns true); (resize, Returns v2);
                        (imencode, Returns v3); (b64encode, Returns v4);
                        (send, Raises e)].
      rewrite <- !app_assoc.
      split; [reflexivity |]. split; [intros v |]; not_in_log. }
  left. exists v2, v3, v4, v5. rewrite <- !app_assoc. reflexivity.
Qed.

Lemma cleanup_log (st : result status) (tail : log) :
  cleanup st tail ->
  (forall v, (send, Returns v) ∉ tail)
  /\ ((read, Returns false) ∉ tail)
  /\ st <> Ok Running.
Proof.
  intros H. destruct H; (split; [intros ? |]); (try split);
    try not_in_log; discriminate.
Qed.

(** The log of the loop: complete turns, then the last turn. *)
Lemma capture_loop_log (w : world) (fuel : nat) (tr tr' : log)
    (st : result status) :
  capture_loop w fuel tr = (st, tr') ->
  exists (its : list log) (tail : log),
    tr' = tr ++ concat its ++ tail
    /\ Forall complete_iteration its
    /\ (length its <= fuel)%nat
    /\ last_turn st tail
    /\ (st = Ok Running -> length its = fuel).
Proof.
  revert tr. induction fuel as [| fuel IH]; intros tr; cbn [capture_loop].
  - intros [= <- <-]. exists [], []. cbn. rewrite app_nil_r.
    split; [reflexivity |]. split; [constructor |]. split; [lia |].
    split; [| reflexivity].
    split; [intros v; not_in_log |]. split; [not_in_log | reflexivity].
  - unfold Eff.bind.
    destruct (perform_cases w isOpened tr) as [[opened ->] | [e ->]].
    2:{ intros [= <- <-]. exists [], [(isOpened, Raises e)].
        split; [reflexivity |]. split; [constructor |]. split; [cbn; lia |].
        split; [| discriminate].
        split; [intros v; not_in_log |]. split; [not_in_log | discriminate]. }
    destruct opened.
    2:{ intros [= <- <-]. exists [], [(isOpened, Returns false)].
        split; [reflexivity |]. split; [constructor |]. split; [cbn; lia |].
        split; [| discriminate].
        split; [intros v; not_in_log |]. split; [not_in_log | discriminate]. }
    unfold try_except_KeyboardInterrupt.
    destruct (body_log w (tr ++ [(isOpened, Returns true)]))
      as [(v2 & v3 & v4 & v5 & ->) | (e & part & -> & Hsend & Hread)].
    + intros Hrun. apply IH in Hrun
        as (its & tail & -> & Hits & Hlen & Htail & Hrunning).
      exists ([(isOpened, Returns true); (read, Returns true);
               (resize, Returns v2); (imencode, Returns v3);
               (b64encode, Returns v4); (send, Returns v5)] :: its), tail.
      split; [cbn [concat]; rewrite <- !app_assoc; reflexivity |].
      split; [constructor; [exists v2, v3, v4, v5; reflexivity | exact Hits] |].
      split; [cbn; lia |]. split; [exact Htail |].
      intros Hst. cbn. rewrite (Hrunning Hst). reflexivity.
    + destruct (decide (e = KeyboardInterrupt)) as [-> | Hne].
      * destruct (handler_cases w ((tr ++ [(isOpened, Returns true)]) ++ part))
          as (r & tail & -> & Hclean & Hbreak).
        apply cleanup_log in Hclean as (Hcsend & Hcread & Hcst).
        assert (Hshape : forall st0,
          st0 = match r with Ok _ => Ok Exited | Raise e => Raise e end ->
          last_turn st0 ((isOpened, Returns true) :: part ++ tail)).
        { intros st0 ->. split; [| split].
          - intros v [Hin | Hin]%elem_of_cons; [discriminate Hin |].
            apply elem_of_app in Hin as [Hin | Hin];
              [exact (Hsend v Hin) | exact (Hcsend v Hin)].
          - intros [Hin | Hin]%elem_of_cons; [discriminate Hin |].
            apply elem_of_app in Hin as [Hin | Hin];
              [| contradiction].
            destruct (Hread Hin) as [Hcv _]. discriminate Hcv.
          - intros Hst. contradiction. }
        destruct r as [f | e].
        -- rewrite (Hbreak f eq_refl). intros [= <- <-].
           exists [], ((isOpened, Returns true) :: part ++ tail).
           split; [cbn; rewrite <- !app_assoc; reflexivity |].
           split; [constructor |]. split; [cbn; lia |].
           split; [apply Hshape; reflexivity | discriminate].
        -- intros [= <- <-].
           exists [], ((isOpened, Returns true) :: part ++ tail).
           split; [cbn; rewrite <- !app_assoc; reflexivity |].
           split; [constructor |]. split; [cbn; lia |].
           split; [apply Hshape; reflexivity | discriminate].
      * assert (Hrun : forall st0 tr0,
          (Raise e, (tr ++ [(isOpened, Returns true)]) ++ part) = (st0, tr0) ->
          exists (its : list log) (tail : log),
            tr0 = tr ++ concat its ++ tail
            /\ Forall complete_iteration its
            /\ (length its <= S fuel)%nat
            /\ last_turn st0 tail
            /\ (st0 = Ok Running -> length its = S fuel)).
        { intros st0 tr0 [= <- <-].
          exists [], ((isOpened, Returns true) :: part).
          split; [cbn; rewrite <- !app_assoc; reflexivity |].
          split; [constructor |]. split; [cbn; lia |].
          split; [| discriminate]. split; [| split; [| discriminate]].
          - intros v [Hin | Hin]%elem_of_cons; [discriminate Hin |].
            exact (Hsend v Hin).
          - intros [Hin | Hin]%elem_of_cons; [discriminate Hin |].
            destruct (Hread Hin) as [-> ->]. split; [reflexivity |].
            exists [(isOpened, Returns true)]. reflexivity. }
        destruct e; try contradiction; apply Hrun.
Qed.

(** X14.  What a log looks like: the call to [VideoCapture], then complete
    turns of [isOpened], [read], [resize], [imencode], [b64encode] and
    [send] that all returned with a frame grabbed, then one last turn in
    which nothing was sent.  So a frame is only ever sent after it was
    grabbed, resized and encoded in the same turn, at most one per turn;
    and a loop still turning after [fuel] turns has sent [fuel] frames. *)
Theorem script_log_shape (w : world) (fuel : nat) :
  exists (o : outcome) (its : list log) (tail : log),
    snd (script w fuel) = (VideoCapture, o) :: concat its ++ tail
    /\ Forall complete_iteration its
    /\ (length its <= fuel)%nat
    /\ (forall v, (send, Returns v) ∉ tail)
    /\ (fst (script w fuel) = Ok Running ->
        tail = [] /\ length its = fuel).
Proof.
  unfold script, Eff.bind.
  destruct (perform_cases w VideoCapture []) as [[v ->] | [e ->]].
  - destruct (capture_loop w fuel ([] ++ [(VideoCapture, Returns v)]))
      as [st tr'] eqn:Erun.
    apply capture_loop_log in Erun
      as (its & tail & -> & Hits & Hlen & (Hsend & _ & Hrun) & Hfull).
    exists (Returns v), its, tail. cbn [fst snd app].
    split; [reflexivity |]. split; [exact Hits |]. split; [exact Hlen |].
    split; [exact Hsend |].
    intros Hst. split; [exact (Hrun Hst) | exact (Hfull Hst)].
  - exists (Raises e), [], []. cbn.
    split; [reflexivity |]. split; [constructor |]. split; [lia |].
    split; [intros v; not_in_log | discriminate].
Qed.

Lemma complete_iteration_grabbed (its : list log) :
  Forall complete_iteration its -> (read, Returns false) ∉ concat its.
Proof.
  induction 1 as [| it its (v2 & v3 & v4 & v5 & ->) _ IH]; cbn [concat].
  - not_in_log.
  - intros [Hin | Hin]%elem_of_app; [revert Hin; not_in_log | exact (IH Hin)].
Qed.

(** X15.  A [read] that grabs nothing ends the script: whenever the log
    holds a [read] that reported no frame, that [read] is the last but one
    call, the last call is the [resize] raising [cv2.error], the script
    ends on this exception, and the capture was never released. *)
Theorem script_failed_grab (w : world) (fuel : nat) :
  (read, Returns false) ∈ snd (script w fuel) ->
  fst (script w fuel) = Raise cv2_error
  /\ (exists pre,
        snd (script w fuel)
        = pre ++ [(read, Returns false); (resize, Raises cv2_error)])
  /\ released (snd (script w fuel)) = 0%nat.
Proof.
  assert (Hmain :
    (read, Returns false) ∈ snd (script w fuel) ->
    fst (script w fuel) = Raise cv2_error
    /\ exists pre,
         snd (script w fuel)
         = pre ++ [(read, Returns false); (resize, Raises cv2_error)]).
  { unfold script, Eff.bind.
    destruct (perform_cases w VideoCapture []) as [[v ->] | [e ->]].
    2:{ cbn. not_in_log. }
    destruct (capture_loop w fuel ([] ++ [(VideoCapture, Returns v)]))
      as [st tr'] eqn:Erun.
    apply capture_loop_log in Erun
      as (its & tail & -> & Hits & _ & (_ & Hread & _) & _).
    cbn [fst snd app].
    intros [Hin | Hin]%elem_of_cons; [discriminate Hin |].
    apply elem_of_app in Hin as [Hin | Hin];
      [exfalso; exact (complete_iteration_grabbed its Hits Hin) |].
    destruct (Hread Hin) as (-> & pre & ->). split; [reflexivity |].
    exists ((VideoCapture, Returns v) :: concat its ++ pre).
    cbn [app]. rewrite <- app_assoc. reflexivity. }
  intros Hin. destruct (Hmain Hin) as [Hst Hlog].
  split; [exact Hst |]. split; [exact Hlog |].
  assert (Hres : (resize, Raises cv2_error) ∈ snd (script w fuel)).
  { destruct Hlog as [pre ->]. apply elem_of_app. right. right. left. }
  clear Hmain Hin Hst Hlog. revert Hres.
  destruct (script_shape w fuel)
    as [st tr Hq | e c tr He Hc Hq | st c tr tail Hc Hq Hclean].
  - intros _. apply released_quiet, Hq.
  - intros _. rewrite released_app, (released_quiet tr Hq).
    rewrite released_other by exact (in_body_not_release c Hc). reflexivity.
  - intros Hres. exfalso.
    assert (Hresize : in_body resize) by (unfold in_body; tauto).
    apply elem_of_app in Hres as [Hres | Hres];
      [exact (quiet_no_raise _ _ _ Hq Hresize Hres) |].
    apply elem_of_cons in Hres as [Hres | Hres]; [discriminate Hres |].
    apply cleanup_facts in Hclean as (_ & _ & _ & Hout).
    exact (Hout _ _ Hres Hresize).
Qed.

Lemma script_failed_grab_witness :
  (read, Returns false) ∈ snd (script read_grabs_nothing 1)
  /\ fst (script read_grabs_nothing 1) = Raise cv2_error
  /\ released (snd (script read_grabs_nothing 1)) = 0%nat.
Proof.
  assert (Hin : (read, Returns false) ∈ snd (script read_grabs_nothing 1)).
  { apply list_elem_of_In. vm_compute. tauto. }
  split; [exact Hin |].
  destruct (script_failed_grab read_grabs_nothing 1 Hin) as (Hst & _ & Hrel).
  split; [exact Hst | exact Hrel].
Defined.

End stream_more.

(** ** The overlay *)

Section overlay.

Import Main.

Variable format_text_line : Q -> Q -> Q -> Z -> string.
Variable tostring : list Svg.element -> string.

Lemma pose_elements_returns (src_size : Z * Z) (box : Q * Q * Q * Q)
    (pose : list (string * Render.Keypoint)) (canvas : list Svg.element)
    (out : list (Q * Q * Q * Q)) :
  nonzero box ->
  Render.draw_pose src_size box Render.default_color Render.default_threshold
    {| Render.elements := canvas;
       Render.keypoints := pose;
       Render.stdout := out |}
  = (Ok tt,
     {| Render.elements := canvas ++ pose_elements src_size box pose;
        Render.keypoints := pose;
        Render.stdout := out ++ [box] |}).
Proof.
  intros Hbox. unfold pose_elements.
  rewrite (new_elements_returns _ _ _ _ _ Hbox).
  rewrite (draw_pose_returns _ _ _ _ _ Hbox). reflexivity.
Qed.

Lemma on_canvas_draw_pose (src_size : Z * Z) (box : Q * Q * Q * Q)
    (pose : list (string * Render.Keypoint)) (canvas : list Svg.element)
    (s : state) :
  nonzero box ->
  on_canvas canvas pose
    (Render.draw_pose src_size box Render.default_color
                      Render.default_threshold) s
  = (Ok (canvas ++ pose_elements src_size box pose),
     set_stdout (stdout s ++ [box]) s).
Proof.
  intros Hbox. unfold on_canvas.
  rewrite (pose_elements_returns _ _ _ _ _ Hbox). reflexivity.
Qed.

(** The loop over the poses with a box of non-zero width and height. *)
Lemma draw_all_poses (src_size : Z * Z) (box : Q * Q * Q * Q)
    (outputs : list (list (string * Render.Keypoint)))
    (canvas : list Svg.element) (s : state) :
  nonzero box ->
  Eff.for_in outputs (fun pose svg_canvas =>
    on_canvas svg_canvas pose
      (Render.draw_pose src_size box Render.default_color
                        Render.default_threshold)) canvas s
  = (Ok (canvas ++ concat (map (pose_elements src_size box) outputs)),
     set_stdout (stdout s ++ replicate (length outputs) box) s).
Proof.
  intros Hbox. revert canvas s.
  induction outputs as [| pose outputs IH]; intros canvas s; cbn.
  - rewrite !app_nil_r. destruct s; reflexivity.
  - unfold Eff.bind. rewrite (on_canvas_draw_pose _ _ _ _ _ Hbox).
    rewrite IH. cbn. rewrite <- !app_assoc. reflexivity.
Qed.


Lemma shadow_text_on_canvas (text_line : string) (s : state) :
  on_canvas [] []
    (Render.shadow_text 10 20 text_line Render.default_font_size) s
  = (Ok (overlay_text text_line), s).
Proof. destruct s; reflexivity. Qed.


Lemma inject_Z_succ_nonzero (k : Z) : 0 <= k -> ~ (inject_Z (k + 1) == 0)%Q.
Proof.
  intros Hk. change 0%Q with (inject_Z 0). rewrite inject_Z_injective. lia.
Qed.

(** X17.  An average inference time of zero stops the call early: from a
    count [n >= 0], if the inference times add up to zero the call raises
    [ZeroDivisionError] at [1000 / avg_inference_time], before the
    estimator is advanced and before anything is drawn or printed. *)
Theorem render_overlay_zero_average
    (outputs : list (list (string * Render.Keypoint)))
    (inference_time start_time end_time now : Q) (src_size : Z * Z)
    (inference_box : Q * Q * Q * Q) (s : state) :
  0 <= n s ->
  (sum_inference_time s + inference_time == 0)%Q ->
  let run := render_overlay format_text_line tostring
               (outputs, inference_time) (start_time, end_time, now)
               src_size inference_box s in
  fst run = Raise ZeroDivisionError
  /\ fps_counter (snd run) = fps_counter s
  /\ stdout (snd run) = stdout s.
Proof.
  intros Hn Hsum run. subst run.
  unfold render_overlay, Eff.bind, Eff.modify, Eff.get, Eff.lift.
  cbn [n sum_process_time sum_inference_time ctr fps_counter stdout
       set_n set_sum_process_time set_sum_inference_time].
  rewrite truediv_ok by exact (inject_Z_succ_nonzero _ Hn).
  rewrite truediv_raise; [repeat split |].
  rewrite Hsum. unfold Qdiv. apply Qmult_0_l.
Qed.

(** A call in which no division raises, the estimator yields and the box,
    if a pose is to be drawn, has non-zero width and height. *)
Lemma render_overlay_ok
    (outputs : list (list (string * Render.Keypoint)))
    (inference_time start_time end_time now : Q) (src_size : Z * Z)
    (inference_box : Q * Q * Q * Q) (s : state) (true_fps : Q)
    (g : Fps.generator) :
  0 <= n s ->
  ~ (sum_inference_time s + inference_time == 0)%Q ->
  Fps.next (fps_counter s) now = (Ok true_fps, g) ->
  (outputs <> [] -> nonzero inference_box) ->
  let avg := ((sum_inference_time s + inference_time)
              / inject_Z (n s + 1))%Q in
  render_overlay format_text_line tostring
    (outputs, inference_time) (start_time, end_time, now)
    src_size inference_box s
  = (Ok (tostring
           (overlay_text
              (format_text_line avg (1000 / avg)%Q true_fps
                                (Z.of_nat (length outputs)))
            ++ concat (map (pose_elements src_size inference_box) outputs)),
         false),
     {| n := n s + 1;
        sum_process_time :=
          (sum_process_time s + 1000 * (end_time - start_time))%Q;
        sum_inference_time := (sum_inference_time s + inference_time)%Q;
        ctr := ctr s;
        fps_counter := g;
        stdout := stdout s ++ replicate (length outputs) inference_box |}).
Proof.
  intros Hn Hsum Hfps Hbox avg.
  assert (Havg : ~ (avg == 0)%Q).
  { unfold avg. intros H0. apply Hsum.
    pose proof (inject_Z_succ_nonzero _ Hn) as Hk.
    rewrite <- (Qmult_div_r (sum_inference_time s + inference_time)
                            (inject_Z (n s + 1)) Hk).
    rewrite H0. apply Qmult_0_r. }
  unfold render_overlay, Eff.bind, Eff.modify, Eff.get, Eff.lift,
    next_fps_counter.
  cbn [n sum_process_time sum_inference_time ctr fps_counter stdout
       set_n set_sum_process_time set_sum_inference_time].
  rewrite truediv_ok by exact (inject_Z_succ_nonzero _ Hn).
  fold avg. rewrite (truediv_ok _ _ Havg), Hfps.
  rewrite shadow_text_on_canvas.
  destruct outputs as [| pose outputs].
  - cbn. rewrite !app_nil_r. reflexivity.
  - rewrite draw_all_poses by (apply Hbox; discriminate). reflexivity.
Qed.

(** X18.  The overlay of a call that returns: from a count [n >= 0], when
    the inference times do not add up to zero, the estimator yields and
    the box has non-zero width and height (or there is no pose), the call
    returns the serialised canvas and the stop flag [False].  The canvas
    holds the two text elements of the status line at (10, 20), then for
    each pose, in the order of the parser's output, what [draw_pose] adds
    for it with the default colour and threshold; the box is printed once
    per pose. *)
Theorem render_overlay_returns
    (outputs : list (list (string * Render.Keypoint)))
    (inference_time start_time end_time now : Q) (src_size : Z * Z)
    (inference_box : Q * Q * Q * Q) (s : state) (true_fps : Q)
    (g : Fps.generator) :
  0 <= n s ->
  ~ (sum_inference_time s + inference_time == 0)%Q ->
  Fps.next (fps_counter s) now = (Ok true_fps, g) ->
  (outputs <> [] -> nonzero inference_box) ->
  let avg := ((sum_inference_time s + inference_time)
              / inject_Z (n s + 1))%Q in
  let run := render_overlay format_text_line tostring
               (outputs, inference_time) (start_time, end_time, now)
               src_size inference_box s in
  fst run
  = Ok (tostring
          (overlay_text
             (format_text_line avg (1000 / avg)%Q true_fps
                               (Z.of_nat (length outputs)))
           ++ concat (map (pose_elements src_size inference_box) outputs)),
        false)
  /\ fps_counter (snd run) = g
  /\ stdout (snd run)
     = stdout s ++ replicate (length outputs) inference_box.
Proof.
  intros Hn Hsum Hfps Hbox avg run. subst run avg.
  rewrite (render_overlay_ok outputs inference_time start_time end_time now
             src_size inference_box s true_fps g Hn Hsum Hfps Hbox).
  repeat split.
Qed.

(** X19.  An overlay whose estimator is exhausted never comes back: once
    [fps_counter] is finished, every call of [render_overlay] raises and
    leaves it finished. *)
Theorem render_overlay_never_recovers
    (outputs : list (list (string * Render.Keypoint)))
    (inference_time start_time end_time now : Q) (src_size : Z * Z)
    (inference_box : Q * Q * Q * Q) (s : state) :
  fps_counter s = Fps.Finished ->
  let run := render_overlay format_text_line tostring
               (outputs, inference_time) (start_time, end_time, now)
               src_size inference_box s in
  (exists e : exn, fst run = Raise e)
  /\ fps_counter (snd run) = Fps.Finished.
Proof.
  intros Hfin run. subst run.
  unfold render_overlay, Eff.bind, Eff.modify, Eff.get, Eff.lift,
    next_fps_counter.
  cbn [n sum_process_time sum_inference_time ctr fps_counter stdout
       set_n set_sum_process_time set_sum_inference_time].
  destruct (truediv _ _) as [avg | e]; [| split; [eauto | exact Hfin]].
  destruct (truediv 1000 avg) as [per_second | e];
    [| split; [eauto | exact Hfin]].
  rewrite Hfin. cbn. split; [eauto | reflexivity].
Qed.

End overlay.

(** X17 on a first frame whose inference time is zero. *)
Lemma render_overlay_zero_average_witness :
  fst (Main.render_overlay example_format example_tostring
         ([example_pose], 0%Q) (1, 2, 3)%Q (640, 480) (0, 0, 320, 240)%Q
         Main.main_state)
  = Raise ZeroDivisionError
  /\ Main.fps_counter
       (snd (Main.render_overlay example_format example_tostring
               ([example_pose], 0%Q) (1, 2, 3)%Q (640, 480)
               (0, 0, 320, 240)%Q Main.main_state))
     = Main.fps_counter Main.main_state
  /\ Main.stdout
       (snd (Main.render_overlay example_format example_tostring
               ([example_pose], 0%Q) (1, 2, 3)%Q (640, 480)
               (0, 0, 320, 240)%Q Main.main_state))
     = Main.stdout Main.main_state.
Proof.
  refine (render_overlay_zero_average example_format example_tostring
            [example_pose] 0%Q 1%Q 2%Q 3%Q (640, 480) (0, 0, 320, 240)%Q
            Main.main_state _ _).
  - cbn. lia.
  - reflexivity.
Defined.

(** X18 on a first frame with the example pose. *)
Lemma render_overlay_returns_witness :
  fst (Main.render_overlay example_format example_tostring
         ([example_pose], 12%Q) (1, 2, 3)%Q (640, 480) (0, 0, 320, 240)%Q
         Main.main_state)
  = Ok ("svg", false)
  /\ Main.fps_counter
       (snd (Main.render_overlay example_format example_tostring
               ([example_pose], 12%Q) (1, 2, 3)%Q (640, 480)
               (0, 0, 320, 240)%Q Main.main_state))
     = Fps.Suspended (Deque.new 30) 3%Q
  /\ Main.stdout
       (snd (Main.render_overlay example_format example_tostring
               ([example_pose], 12%Q) (1, 2, 3)%Q (640, 480)
               (0, 0, 320, 240)%Q Main.main_state))
     = [(0, 0, 320, 240)%Q].
Proof.
  refine (render_overlay_returns example_format example_tostring
            [example_pose] 12%Q 1%Q 2%Q 3%Q (640, 480) (0, 0, 320, 240)%Q
            Main.main_state 0%Q (Fps.Suspended (Deque.new 30) 3%Q)
            _ _ _ _).
  - cbn. lia.
  - discriminate.
  - reflexivity.
  - intros _. exact example_box_nonzero.
Defined.

(** X19 on the initial variables with an exhausted estimator. *)
Lemma render_overlay_never_recovers_witness :
  (exists e : exn,
      fst (Main.render_overlay example_format example_tostring
             ([example_pose], 12%Q) (1, 2, 3)%Q (640, 480)
             (0, 0, 320, 240)%Q
             (Main.set_fps_counter Fps.Finished Main.main_state))
      = Raise e)
  /\ Main.fps_counter
       (snd (Main.render_overlay example_format example_tostring
               ([example_pose], 12%Q) (1, 2, 3)%Q (640, 480)
               (0, 0, 320, 240)%Q
               (Main.set_fps_counter Fps.Finished Main.main_state)))
     = Fps.Finished.
Proof.
  exact (render_overlay_never_recovers example_format example_tostring
           [example_pose] 12%Q 1%Q 2%Q 3%Q (640, 480) (0, 0, 320, 240)%Q
           (Main.set_fps_counter Fps.Finished Main.main_state) eq_refl).
Defined.
